(** * mistral_ocr_script.py: batch PDF/image to Markdown conversion

    A shallow embedding of [mistral_ocr_script.py] and the proofs of the
    properties its specification states.

    - Part 1 models the Python built-ins the script relies on
      ([str.join], [str.replace], [str.find], insertion-ordered [dict]).
    - Part 2 models the Markdown synthesis
      ([replace_images_in_markdown], [generate_markdown_from_response]).
    - Part 3 models the effects: exceptions, the remote Mistral service,
      the local disk, and the log of calls issued by the script.
    - Part 4 models [process_pdf_file], [process_image_file] and [main].
    - Part 5 defines the notions the statements use and a sample run.
    - Part 6 holds the theorems.
    - Part 7 holds further properties of the pipelines, of the synthesis
      and of the batch loop.

    Console output ([print]) is not modelled. *)

From Stdlib Require Import Ascii.
From stdpp Require Import base option list strings gmap.

(* ===================================================================== *)
(** * Part 1. Python built-ins                                           *)
(* ===================================================================== *)

(** Python [str] is modelled by [string]; the functions below only compare
    and copy characters, so the unit of a character does not matter.
    [sep.join(parts)] is [String.concat sep parts]. *)

(** [s.replace(old, new)]: scan [s] from the left; at every position where
    [old] starts, emit [new] and jump past the match; otherwise copy one
    character.  [skip] counts the characters of a match still to be
    jumped over. *)
Fixpoint replace_scan (old new : string) (skip : nat) (s : string) : string :=
  match s with
  | EmptyString => EmptyString
  | String c s' =>
      match skip with
      | S k => replace_scan old new k s'
      | O =>
          if String.prefix old s
          then new +:+ replace_scan old new (String.length old - 1) s'
          else String c (replace_scan old new 0 s')
      end
  end.

(** With an empty [old], Python inserts [new] before every character and
    at the end. *)
Fixpoint replace_empty (new s : string) : string :=
  match s with
  | EmptyString => new
  | String c s' => new +:+ String c (replace_empty new s')
  end.

Definition str_replace (s old new : string) : string :=
  match old with
  | EmptyString => replace_empty new s
  | String _ _ => replace_scan old new 0 s
  end.

(** [s.find(sub)]: the lowest index at which [sub] occurs in [s];
    [None] stands for Python's [-1]. *)
Fixpoint str_find (s sub : string) : option nat :=
  if String.prefix sub s then Some 0
  else match s with
       | EmptyString => None
       | String _ s' => S <$> str_find s' sub
       end.

(** Truth value of a [str]: only the empty string is falsy. *)
Definition str_truthy (s : string) : bool :=
  match s with EmptyString => false | String _ _ => true end.

(** Truth value of a value that is either [None] or a [str]. *)
Definition opt_truthy (o : option string) : bool :=
  match o with None => false | Some s => str_truthy s end.

(** A Python [dict] with [str] keys: insertion-ordered, and assigning to a
    key that is present keeps its position. *)
Definition dict (V : Type) := list (string * V).

Fixpoint dict_set {V} (d : dict V) (k : string) (v : V) : dict V :=
  match d with
  | [] => [(k, v)]
  | (k', v') :: d' =>
      if String.eqb k k' then (k, v) :: d' else (k', v') :: dict_set d' k v
  end.

(** [s.lower()] on the ASCII letters. *)
Definition ascii_lower (c : ascii) : ascii :=
  let n := nat_of_ascii c in
  if (65 <=? n)%nat && (n <=? 90)%nat then ascii_of_nat (n + 32) else c.

Fixpoint str_lower (s : string) : string :=
  match s with
  | EmptyString => EmptyString
  | String c s' => String (ascii_lower c) (str_lower s')
  end.

(* ===================================================================== *)
(** * Part 2. Markdown synthesis                                         *)
(* ===================================================================== *)

(** The objects of an OCR response.  The script probes them with
    [hasattr]/[getattr]: a field is [None] when the attribute is missing. *)
Record OCRImageObject := {
  img_id : option string;
  image_base64 : option string
}.

Record OCRPageObject := {
  markdown : option string;
  (** [getattr(page, 'images', [])] *)
  images : list OCRImageObject
}.

Record OCRResponse := {
  (** [None]: the response has no [pages] attribute. *)
  pages : option (list OCRPageObject)
}.

Definition LF : string := String "010"%char EmptyString.

(** The literal ["\n\n---\n\n"] of line 76. *)
Definition PAGE_SEPARATOR : string := LF +:+ LF +:+ "---" +:+ LF +:+ LF.

(** [f"![{img_id}]({img_id})"] *)
Definition placeholder (img_id : string) : string :=
  "![" +:+ img_id +:+ "](" +:+ img_id +:+ ")".

(** [f"![{img_id}]({base64_data_url})"] *)
Definition replacement (img_id base64_data_url : string) : string :=
  "![" +:+ img_id +:+ "](" +:+ base64_data_url +:+ ")".

(** [f"data:image/png;base64,{img.image_base64}"] *)
Definition png_data_url (payload : string) : string :=
  "data:image/png;base64," +:+ payload.

Definition replace_images_in_markdown
    (markdown_str : string) (images_dict : dict string) : string :=
  match images_dict with
  | [] => markdown_str
  | _ =>
      foldl (fun updated_markdown '(img_id, base64_data_url) =>
               str_replace updated_markdown
                 (placeholder img_id) (replacement img_id base64_data_url))
            markdown_str images_dict
  end.

(** Body of the loop [for img in page_images] (lines 68-72). *)
Definition image_data_step
    (image_data : dict string) (img : OCRImageObject) : dict string :=
  match img_id img, image_base64 img with
  | Some i, Some payload => dict_set image_data i (png_data_url payload)
  | _, _ => image_data
  end.

(** Body of the loop [for i, page in enumerate(ocr_response.pages)]
    (lines 58-74): the new value of [markdown_parts]. *)
Definition page_step (include_images : bool)
    (markdown_parts : list string) (page : OCRPageObject) : list string :=
  match markdown page with
  | None => markdown_parts
  | Some page_markdown =>
      let page_images := images page in
      let page_markdown :=
        match include_images, page_images with
        | true, _ :: _ =>
            let image_data := foldl image_data_step [] page_images in
            replace_images_in_markdown page_markdown image_data
        | _, _ => page_markdown
        end in
      markdown_parts ++ [page_markdown]
  end.

Definition generate_markdown_from_response
    (ocr_response : OCRResponse) (include_images : bool) : string :=
  match pages ocr_response with
  | None | Some [] => ""
  | Some ps =>
      String.concat PAGE_SEPARATOR (foldl (page_step include_images) [] ps)
  end.

(* ===================================================================== *)
(** * Part 3. Effects                                                    *)
(* ===================================================================== *)

(** The exceptions the script distinguishes.  All three are subclasses of
    [Exception]; [IOError] is Python 3's [OSError].  [OtherError] stands
    for every other subclass of [Exception]. *)
Inductive exception := IOError | NameError | OtherError.

Inductive outcome (A : Type) :=
| Normal (a : A)
| Raised (e : exception).
Arguments Normal {A} a.
Arguments Raised {A} e.

(** The [document] argument of [client.ocr.process]. *)
Inductive document :=
| document_url (url : string)
| image_url (data_url : string).

Inductive upload_method := method_upload | method_create.

(** The calls that leave the process: the four remote capabilities, and
    the write of an output file.  A call is logged when it is issued,
    whatever its result. *)
Inductive event :=
| FilesUpload (via : upload_method) (file_name purpose : string)
| FilesGetSignedUrl (file_id : string)
| OcrProcess (model : string) (doc : document)
             (include_image_base64 : option bool)
| FilesDelete (file_id : string)
| WriteText (path content : string).

Definition is_remote (e : event) : bool :=
  match e with WriteText _ _ => false | _ => true end.

(** Objects returned by the remote client. *)
Record UploadFileOut := { file_id : string }.

Record FileSignedURL := {
  signed_url : option string;
  url : option string
}.

(** The remote client.  [World] is the state of everything outside the
    process; a method takes it and returns it changed.  [files_upload] and
    [files_create] are [None] when [hasattr(client.files, ...)] is false. *)
Record MistralAPIClient (World : Type) := {
  files_upload :
    option (string -> list Byte.byte -> World -> outcome UploadFileOut * World);
  files_create :
    option (string -> list Byte.byte -> World -> outcome UploadFileOut * World);
  files_get_signed_url : string -> World -> outcome FileSignedURL * World;
  ocr_process :
    document -> option bool -> World -> outcome OCRResponse * World;
  files_delete : string -> World -> outcome unit * World
}.
Arguments files_upload {World} _.
Arguments files_create {World} _.
Arguments files_get_signed_url {World} _.
Arguments ocr_process {World} _.
Arguments files_delete {World} _.

(** A [pathlib.Path] of the working directory: [name = stem + suffix]. *)
Record Path := { stem : string; suffix : string }.

Definition name (p : Path) : string := stem p +:+ suffix p.

Definition with_suffix (p : Path) (s : string) : Path :=
  {| stem := stem p; suffix := s |}.

Record DirEntry := { entry_path : Path; is_file : bool }.

(** What [with open(path, "w") as f: f.write(content)] can do: succeed;
    fail in [open], leaving the disk as it was; or fail in [write], after
    [open] has created the file, leaving [flushed] in it. *)
Inductive write_result :=
| Written
| OpenFailed (e : exception)
| WriteFailed (e : exception) (flushed : string).

(** The interpreter and operating system around the script. *)
Record Host (World : Type) := {
  (** [os.getenv], after [load_dotenv()] *)
  getenv : string -> option string;
  (** [MistralAPIClient(api_key=...)] *)
  new_client : string -> World -> outcome (MistralAPIClient World) * World;
  (** [list(script_dir.iterdir())] *)
  iterdir : World -> outcome (list DirEntry) * World;
  (** [Path(__file__).resolve()]; [None] when [__file__] is undefined
      and the expression raises [NameError] *)
  script_file_path : option string;
  (** [file_path.resolve()] *)
  resolve : Path -> string;
  (** [open(file_path, "rb")] and the read of its content *)
  open_rb : Path -> World -> outcome (list Byte.byte) * World;
  (** the result of opening a file for writing and writing to it *)
  open_w : string -> string -> World -> write_result * World;
  (** [mimetypes.guess_type(file_path)[0]] *)
  guess_type : Path -> option string;
  (** [base64.b64encode(image_bytes).decode("utf-8")] *)
  b64encode : list Byte.byte -> string
}.
Arguments getenv {World} _.
Arguments new_client {World} _.
Arguments iterdir {World} _.
Arguments script_file_path {World} _.
Arguments resolve {World} _.
Arguments open_rb {World} _.
Arguments open_w {World} _.
Arguments guess_type {World} _.
Arguments b64encode {World} _.

(** The state the script runs in: the outside world, the text files of
    the working directory as [Path.exists] and the writes see them, and
    the log of calls issued so far. *)
Record machine (World : Type) := {
  world : World;
  disk : gmap string string;
  calls : list event
}.
Arguments world {World} _.
Arguments disk {World} _.
Arguments calls {World} _.

(** A computation of the script: [L] holds the local variables that the
    enclosing function assigns to. *)
Definition M (World L A : Type) : Type :=
  L -> machine World -> outcome A * L * machine World.

Section Monad.
Context {World L : Type}.

#[global] Instance M_ret : MRet (M World L) :=
  fun A a l m => (Normal a, l, m).

#[global] Instance M_bind : MBind (M World L) :=
  fun A B k c l m =>
    match c l m with
    | (Normal a, l', m') => k a l' m'
    | (Raised e, l', m') => (Raised e, l', m')
    end.

Definition raise {A} (e : exception) : M World L A :=
  fun l m => (Raised e, l, m).

Definition get_local : M World L L :=
  fun l m => (Normal l, l, m).

Definition modify_local (f : L -> L) : M World L unit :=
  fun l m => (Normal tt, f l, m).

Definition get_disk : M World L (gmap string string) :=
  fun l m => (Normal (disk m), l, m).

(** [try: body / except Exception as e: handler e] *)
Definition try_except {A}
    (body : M World L A) (handler : exception -> M World L A) : M World L A :=
  fun l m =>
    match body l m with
    | (Raised e, l', m') => handler e l' m'
    | r => r
    end.

(** [try: body / finally: cleanup]: the cleanup runs on every exit of
    the body; the outcome of the body stands unless the cleanup raises. *)
Definition try_finally {A}
    (body : M World L A) (cleanup : M World L unit) : M World L A :=
  fun l m =>
    let '(r, l', m') := body l m in
    match cleanup l' m' with
    | (Normal _, l'', m'') => (r, l'', m'')
    | (Raised e, l'', m'') => (Raised e, l'', m'')
    end.

(** A call of a function whose own local variables start as [frame]. *)
Definition call {L' A} (frame : L') (f : M World L' A) : M World L A :=
  fun l m => let '(r, _, m') := f frame m in (r, l, m').

Definition log (e : event) : M World L unit :=
  fun l m =>
    (Normal tt, l,
     {| world := world m; disk := disk m; calls := calls m ++ [e] |}).

Definition extern {A} (op : World -> outcome A * World) : M World L A :=
  fun l m =>
    let '(r, w) := op (world m) in
    (r, l, {| world := w; disk := disk m; calls := calls m |}).

(** A call that leaves the process: logged, then answered by the world. *)
Definition issue {A} (e : event) (op : World -> outcome A * World)
  : M World L A :=
  log e ;; extern op.

(** The effect of [with open(path, "w", encoding="utf-8") as f:
    f.write(content)] on the disk. *)
Definition store_text (host : Host World) (path content : string)
  : M World L unit :=
  fun l m =>
    let '(r, w) := open_w host path content (world m) in
    match r with
    | Written =>
        (Normal tt, l,
         {| world := w; disk := <[path := content]> (disk m);
            calls := calls m |})
    | OpenFailed e =>
        (Raised e, l, {| world := w; disk := disk m; calls := calls m |})
    | WriteFailed e flushed =>
        (Raised e, l,
         {| world := w; disk := <[path := flushed]> (disk m);
            calls := calls m |})
    end.

Definition write_text (host : Host World) (path content : string)
  : M World L unit :=
  log (WriteText path content) ;; store_text host path content.

(** [for x in xs: body x] *)
Fixpoint for_each {X} (xs : list X) (body : X -> M World L unit)
  : M World L unit :=
  match xs with
  | [] => mret tt
  | x :: xs' => body x ;; for_each xs' body
  end.
End Monad.

(* ===================================================================== *)
(** * Part 4. The script                                                 *)
(* ===================================================================== *)

(** [SUPPORTED_EXTENSIONS] (line 15). *)
Definition SUPPORTED_EXTENSIONS : list string :=
  [".pdf"; ".png"; ".jpg"; ".jpeg"; ".webp"].

Definition in_supported (ext : string) : bool :=
  bool_decide (ext ∈ SUPPORTED_EXTENSIONS).

(** [mime_map.get(ext)] (lines 195-197). *)
Definition mime_map_get (ext : string) : option string :=
  if String.eqb ext ".png" then Some "image/png"
  else if String.eqb ext ".jpg" then Some "image/jpeg"
  else if String.eqb ext ".jpeg" then Some "image/jpeg"
  else if String.eqb ext ".webp" then Some "image/webp"
  else None.

(** The counters of [main] (lines 253-255). *)
Record counters := {
  files_processed : nat;
  files_skipped : nat;
  errors_occurred : nat
}.

Definition incr_processed (c : counters) : counters :=
  {| files_processed := S (files_processed c);
     files_skipped := files_skipped c;
     errors_occurred := errors_occurred c |}.

Definition incr_skipped (c : counters) : counters :=
  {| files_processed := files_processed c;
     files_skipped := S (files_skipped c);
     errors_occurred := errors_occurred c |}.

Definition incr_errors (c : counters) : counters :=
  {| files_processed := files_processed c;
     files_skipped := files_skipped c;
     errors_occurred := S (errors_occurred c) |}.

Section Script.
Context {World : Type}.
Variable host : Host World.
(** [INCLUDE_BASE64_IMAGES_FROM_PDF] (line 14): a configuration switch,
    shipped as [False]. *)
Variable INCLUDE_BASE64_IMAGES_FROM_PDF : bool.

(** Lines 99-112: the upload method the client offers, [upload] first. *)
Definition upload_via (client : MistralAPIClient World)
  : option (upload_method *
            (string -> list Byte.byte -> World
             -> outcome UploadFileOut * World)) :=
  match files_upload client, files_create client with
  | Some up, _ => Some (method_upload, up)
  | None, Some cr => Some (method_create, cr)
  | None, None => None
  end.

(** Lines 87-139: the body of the [try].  The local variable is
    [uploaded_file_id]. *)
Definition pdf_try_body (client : MistralAPIClient World)
    (file_path : Path) (include_images : bool)
  : M World (option string) (option OCRResponse) :=
  f ← extern (open_rb host file_path);
  match upload_via client with
  | None => mret None
  | Some (via, upload) =>
      uploaded_file_obj ←
        issue (FilesUpload via (name file_path) "ocr")
              (upload (name file_path) f);
      let uploaded_file_id := file_id uploaded_file_obj in
      modify_local (fun _ => Some uploaded_file_id) ;;
      signed_url_obj ←
        issue (FilesGetSignedUrl uploaded_file_id)
              (files_get_signed_url client uploaded_file_id);
      let signed_url_str :=
        match signed_url signed_url_obj with
        | Some s => Some s
        | None => url signed_url_obj
        end in
      match signed_url_str with
      | Some signed_url_str =>
          if str_truthy signed_url_str then
            let doc := document_url signed_url_str in
            pdf_response ←
              issue (OcrProcess "mistral-ocr-latest" doc (Some include_images))
                    (ocr_process client doc (Some include_images));
            mret (Some pdf_response)
          else raise OtherError
      | None => raise OtherError
      end
  end.

(** Lines 151-160: the [finally] block. *)
Definition pdf_cleanup (client : MistralAPIClient World)
  : M World (option string) unit :=
  uploaded_file_id ← get_local;
  match uploaded_file_id with
  | Some uploaded_file_id =>
      if str_truthy uploaded_file_id then
        try_except
          (issue (FilesDelete uploaded_file_id)
                 (files_delete client uploaded_file_id))
          (fun e_del => mret tt)
      else mret tt
  | None => mret tt
  end.

(** Lines 80-160.  Both [except] clauses return [None]. *)
Definition process_pdf_file (client : MistralAPIClient World)
    (file_path : Path) (include_images : bool)
  : M World (option string) (option OCRResponse) :=
  try_finally
    (try_except
       (pdf_try_body client file_path include_images)
       (fun e => mret None))
    (pdf_cleanup client).

(** Lines 187-200: the MIME type of the data URL. *)
Definition final_mime_type (file_path : Path) : string :=
  let mime_type_guessed := guess_type host file_path in
  if opt_truthy mime_type_guessed then default "" mime_type_guessed
  else
    let ext := str_lower (suffix file_path) in
    let final_mime_type := mime_map_get ext in
    if opt_truthy final_mime_type then default "" final_mime_type
    else "image/jpeg".

(** Lines 164-229.  The inner [try] yields [None] where the source
    returns [None] from inside it. *)
Definition process_image_file (client : MistralAPIClient World)
    (file_path : Path) : M World unit (option OCRResponse) :=
  try_except
    (read ←
       try_except
         (image_bytes ← extern (open_rb host file_path);
          match image_bytes with
          | [] => mret None
          | _ :: _ => mret (Some image_bytes)
          end)
         (fun e => match e with IOError => mret None | _ => raise e end);
     match read with
     | None => mret None
     | Some image_bytes =>
         let encoded_string := b64encode host image_bytes in
         let base64_data_url :=
           "data:" +:+ final_mime_type file_path +:+ ";base64,"
                   +:+ encoded_string in
         let doc := image_url base64_data_url in
         image_response ←
           issue (OcrProcess "mistral-ocr-latest" doc None)
                 (ocr_process client doc None);
         mret (Some image_response)
     end)
    (fun e => mret None).

(** Lines 268-273. *)
Definition is_candidate (item : DirEntry) : bool :=
  is_file item
  && in_supported (str_lower (suffix (entry_path item)))
  && negb (String.eqb (str_lower (suffix (entry_path item))) ".md").

(** Lines 293-301: whether the candidate is the script itself. *)
Definition is_script_itself (file_path : Path) : bool :=
  match script_file_path host with
  | Some script => String.eqb (resolve host file_path) script
  | None => false
  end.

(** Lines 309-315: the call of the pipeline that fits the file type. *)
Definition dispatch (client : MistralAPIClient World) (file_path : Path)
  : M World counters (option OCRResponse) :=
  let file_type := str_lower (suffix file_path) in
  if String.eqb file_type ".pdf" then
    call None
      (process_pdf_file client file_path INCLUDE_BASE64_IMAGES_FROM_PDF)
  else if in_supported file_type then
    call tt (process_image_file client file_path)
  else mret None.

(** Lines 318-343: what is done with [ocr_response]. *)
Definition handle_response (file_path output_md_path : Path)
    (ocr_response : option OCRResponse) : M World counters unit :=
  let file_type := str_lower (suffix file_path) in
  match ocr_response with
  | Some response =>
      let markdown_content :=
        generate_markdown_from_response response
          (String.eqb file_type ".pdf" && INCLUDE_BASE64_IMAGES_FROM_PDF) in
      try_except
        (write_text host (name output_md_path) markdown_content ;;
         modify_local incr_processed)
        (fun e =>
           match e with
           | IOError => modify_local incr_errors
           | _ => raise e
           end)
  | None => modify_local incr_errors
  end.

(** Lines 307-348: the [try] of the loop body and its handler. *)
Definition convert_file (client : MistralAPIClient World)
    (file_path : Path) (output_md_path : Path) : M World counters unit :=
  try_except
    (ocr_response ← dispatch client file_path;
     handle_response file_path output_md_path ocr_response)
    (fun e => modify_local incr_errors).

(** Lines 281-349: the body of [for file_path in files_to_process]. *)
Definition main_loop_body (client : MistralAPIClient World)
    (file_path : Path) : M World counters unit :=
  let output_md_path := with_suffix file_path ".md" in
  files ← get_disk;
  if bool_decide (is_Some (files !! name output_md_path)) then
    modify_local incr_skipped
  else if is_script_itself file_path then
    modify_local incr_skipped
  else convert_file client file_path output_md_path.

Definition files_to_process (all_items : list DirEntry) : list Path :=
  entry_path <$> filter (fun item => is_candidate item = true) all_items.

(** Lines 235-358.  The value is the argument of [sys.exit]. *)
Definition main : M World counters nat :=
  let api_key := getenv host "MISTRAL_API_KEY" in
  match api_key with
  | None => mret 1
  | Some api_key =>
      if negb (str_truthy api_key) then mret 1
      else
        made ←
          try_except
            (client ← extern (new_client host api_key); mret (Some client))
            (fun e => mret None);
        match made with
        | None => mret 1
        | Some client =>
            listed ←
              try_except
                (all_items ← extern (iterdir host); mret (Some all_items))
                (fun e =>
                   match e with IOError => mret None | _ => raise e end);
            match listed with
            | None => mret 1
            | Some all_items =>
                match files_to_process all_items with
                | [] => mret 0
                | files =>
                    for_each files (main_loop_body client) ;;
                    c ← get_local;
                    mret (if (0 <? errors_occurred c)%nat then 1 else 0)
                end
            end
        end
  end.

Definition zero_counters : counters :=
  {| files_processed := 0; files_skipped := 0; errors_occurred := 0 |}.

(** The exit status of the process: the argument of [sys.exit], or 1
    when an exception reaches the top level. *)
Definition exit_status (m : machine World) : nat :=
  match main zero_counters m with
  | (Normal code, _, _) => code
  | (Raised _, _, _) => 1
  end.
End Script.

(* ===================================================================== *)
(** * Part 5. Notions used in the statements                             *)
(* ===================================================================== *)

(** No occurrence of [old] starts inside [a] when [a] is followed by
    [tail]. *)
Fixpoint unmatched (old a tail : string) : bool :=
  match a with
  | EmptyString => true
  | String c a' =>
      negb (String.prefix old (a +:+ tail)) && unmatched old a' tail
  end.

(** [segs] are the pieces of a text cut at the occurrences of [old] that
    a scan from the left finds: in every piece but the last, followed by
    [old], the first occurrence of [old] is the one that follows the
    piece; the last piece holds no occurrence. *)
Fixpoint cut_at (old : string) (segs : list string) : Prop :=
  match segs with
  | [] => True
  | [s] => str_find s old = None
  | s :: rest =>
      str_find (s +:+ old) old = Some (String.length s) /\ cut_at old rest
  end.

(** [c] does not occur in [s]. *)
Fixpoint lacks (c : ascii) (s : string) : bool :=
  match s with
  | EmptyString => true
  | String a s' => negb (Ascii.eqb a c) && lacks c s'
  end.

(** An image as an OCR service issues it: the id holds neither ["!"] nor
    ["]"], and the payload, being base64, holds no ["!"].  An image
    without id or payload is not constrained. *)
Definition plain_image (img : OCRImageObject) : bool :=
  match img_id img, image_base64 img with
  | Some i, Some payload =>
      lacks "!" i && lacks "]" i && lacks "!" payload
  | _, _ => true
  end.

(** The page carries the image [(id, payload)], and no later image of
    the page carries the same id with a payload. *)
Definition effective (imgs : list OCRImageObject) (id payload : string)
  : Prop :=
  exists earlier later,
    imgs = earlier
           ++ {| img_id := Some id; image_base64 := Some payload |} :: later
    /\ Forall (fun img => img_id img <> Some id \/ image_base64 img = None)
              later.

(** No placeholder of an image of the page occurs in [s]. *)
Definition clear_of (imgs : list OCRImageObject) (s : string) : Prop :=
  forall id payload,
    {| img_id := Some id; image_base64 := Some payload |} ∈ imgs ->
    str_find s (placeholder id) = None.

(** A text laid out as segments and references to images:
    [(s, (id, payload))] is the segment [s] followed by a reference to
    the image [(id, payload)]; [last] is the segment behind the last
    reference.  [token] is the text of a reference. *)
Fixpoint render (token : string -> string -> string)
    (pieces : list (string * (string * string))) (last : string) : string :=
  match pieces with
  | [] => last
  | (s, (id, payload)) :: rest =>
      s +:+ token id payload +:+ render token rest last
  end.

(** The text of a reference once the substitutions for the ids in
    [done] are made. *)
Definition token_after (done : list string) (id payload : string) : string :=
  if bool_decide (id ∈ done)
  then replacement id (png_data_url payload)
  else placeholder id.

(** A page that has a text. *)
Definition has_markdown (p : OCRPageObject) : bool :=
  match markdown p with Some _ => true | None => false end.

(** The handle that staging yields: the [id] of the object returned by
    the upload call, when the file could be opened, the client has an
    upload method and the call returned. *)
Definition staged_handle {World} (host : Host World)
    (client : MistralAPIClient World) (file_path : Path) (w : World)
  : option string :=
  match open_rb host file_path w with
  | (Normal f, w1) =>
      match upload_via client with
      | Some (_, upload) =>
          match upload (name file_path) f w1 with
          | (Normal uploaded_file_obj, _) => Some (file_id uploaded_file_obj)
          | (Raised _, _) => None
          end
      | None => None
      end
  | (Raised _, _) => None
  end.

(** The same client with another [files.delete]. *)
Definition with_delete {World} (client : MistralAPIClient World)
    (delete : string -> World -> outcome unit * World)
  : MistralAPIClient World :=
  {| files_upload := files_upload client;
     files_create := files_create client;
     files_get_signed_url := files_get_signed_url client;
     ocr_process := ocr_process client;
     files_delete := delete |}.

Definition total (c : counters) : nat :=
  files_processed c + files_skipped c + errors_occurred c.

(** The three components of a finished computation. *)
Definition outcome_of {World L A} (x : outcome A * L * machine World)
  : outcome A := x.1.1.
Definition locals_of {World L A} (x : outcome A * L * machine World)
  : L := x.1.2.
Definition machine_of {World L A} (x : outcome A * L * machine World)
  : machine World := x.2.

(** The handles released by a sequence of calls, in order. *)
Definition released (evs : list event) : list string :=
  omap (fun e => match e with FilesDelete h => Some h | _ => None end) evs.

(** The paths written by a sequence of calls, in order. *)
Definition written_paths (evs : list event) : list string :=
  omap (fun e => match e with WriteText p _ => Some p | _ => None end) evs.

(** The remote calls of a sequence of calls. *)
Definition remote_calls (evs : list event) : list event :=
  filter (fun e => is_remote e = true) evs.

(** A scenario to run the script on.  The directory holds a PDF, an image
    of the same stem, a text file and a folder named like a PDF; the
    service stages what it is given, returns a result of zero pages, and
    fails to delete the staged file. *)
Definition sample_client : MistralAPIClient unit :=
  {| files_upload :=
       Some (fun _ _ w => (Normal {| file_id := "file-1" |}, w));
     files_create := None;
     files_get_signed_url :=
       fun _ w =>
         (Normal {| signed_url := Some "https://signed"; url := None |}, w);
     ocr_process := fun _ _ w => (Normal {| pages := Some [] |}, w);
     files_delete := fun _ w => (Raised OtherError, w) |}.

Definition sample_pdf : Path := {| stem := "a"; suffix := ".pdf" |}.

(** An image with the same stem as [sample_pdf]: both convert to
    [a.md]. *)
Definition sample_png : Path := {| stem := "a"; suffix := ".PNG" |}.

Definition sample_directory : list DirEntry :=
  [ {| entry_path := sample_pdf; is_file := true |};
    {| entry_path := sample_png; is_file := true |};
    {| entry_path := {| stem := "notes"; suffix := ".txt" |};
       is_file := true |};
    {| entry_path := {| stem := "scans"; suffix := ".pdf" |};
       is_file := false |} ].

Definition sample_host : Host unit :=
  {| getenv := fun _ => Some "key";
     new_client := fun _ w => (Normal sample_client, w);
     iterdir := fun w => (Normal sample_directory, w);
     script_file_path := Some "/work/mistral_ocr_script.py";
     resolve := fun p => "/work/" +:+ name p;
     open_rb := fun _ w => (Normal [Byte.x25], w);
     open_w := fun _ _ w => (Written, w);
     guess_type := fun _ => None;
     b64encode := fun _ => "JQ==" |}.

Definition sample_machine : machine unit :=
  {| world := tt; disk := ∅; calls := [] |}.

(** What the service answers in the scenario. *)
Definition sample_response : OCRResponse := {| pages := Some [] |}.

(** The machine of the scenario once the [try] block of the PDF pipeline
    has run on [sample_pdf]. *)
Definition sample_processed : machine unit :=
  {| world := tt; disk := ∅;
     calls := [FilesUpload method_upload "a.pdf" "ocr";
               FilesGetSignedUrl "file-1";
               OcrProcess "mistral-ocr-latest"
                 (document_url "https://signed") (Some false)] |}.

(** The same host without the credential. *)
Definition sample_host_without_key : Host unit :=
  {| getenv := fun _ => None;
     new_client := new_client sample_host;
     iterdir := iterdir sample_host;
     script_file_path := script_file_path sample_host;
     resolve := resolve sample_host;
     open_rb := open_rb sample_host;
     open_w := open_w sample_host;
     guess_type := guess_type sample_host;
     b64encode := b64encode sample_host |}.

(** The same machine once the staged file has been released. *)
Definition sample_released : machine unit :=
  {| world := tt; disk := ∅;
     calls := calls sample_processed ++ [FilesDelete "file-1"] |}.

(** The text the loop body writes for a response (lines 320-323). *)
Definition markdown_content_of (embed : bool) (file_path : Path)
    (response : OCRResponse) : string :=
  generate_markdown_from_response response
    (String.eqb (str_lower (suffix file_path)) ".pdf" && embed).

(** ** Further notions and scenarios *)

(** The uploads among a sequence of calls: method, file name, purpose. *)
Definition uploads (evs : list event)
  : list (upload_method * string * string) :=
  omap (fun e => match e with
                 | FilesUpload via n p => Some (via, n, p)
                 | _ => None
                 end) evs.

(** The OCR requests among a sequence of calls: model, document, and the
    [include_image_base64] argument when it is passed. *)
Definition ocr_requests (evs : list event)
  : list (string * document * option bool) :=
  omap (fun e => match e with
                 | OcrProcess model d i => Some (model, d, i)
                 | _ => None
                 end) evs.

(** The output path of a candidate. *)
Definition output_of (file_path : Path) : string :=
  name (with_suffix file_path ".md").

(** [n] more files skipped. *)
Definition skip_more (n : nat) (c : counters) : counters :=
  {| files_processed := files_processed c;
     files_skipped := n + files_skipped c;
     errors_occurred := errors_occurred c |}.

(** [getattr(signed_url_obj, 'signed_url',
    getattr(signed_url_obj, 'url', None))] (line 122). *)
Definition locator_of (answer : FileSignedURL) : option string :=
  match signed_url answer with
  | Some s => Some s
  | None => url answer
  end.

(** The sample client with another answer to [files.get_signed_url]. *)
Definition sample_client_signing (answer : FileSignedURL)
  : MistralAPIClient unit :=
  {| files_upload := files_upload sample_client;
     files_create := files_create sample_client;
     files_get_signed_url := fun _ w => (Normal answer, w);
     ocr_process := ocr_process sample_client;
     files_delete := files_delete sample_client |}.

(** The sample host with another result of writing. *)
Definition sample_host_writing (result : write_result) : Host unit :=
  {| getenv := getenv sample_host;
     new_client := new_client sample_host;
     iterdir := iterdir sample_host;
     script_file_path := script_file_path sample_host;
     resolve := resolve sample_host;
     open_rb := open_rb sample_host;
     open_w := fun _ _ w => (result, w);
     guess_type := guess_type sample_host;
     b64encode := b64encode sample_host |}.

(** An image of another stem. *)
Definition sample_jpg : Path := {| stem := "b"; suffix := ".jpg" |}.

(** Proof steps: [run_script] unfolds the effects of the script,
    [case_step] takes the cases of the next result the world returns, and
    [solve_calls] recognises the calls added to the log. *)
Ltac run_script :=
  unfold try_finally, try_except, issue, log, extern, get_local,
    modify_local, get_disk, raise, call, write_text, store_text;
  unfold mbind, M_bind, mret, M_ret; cbn -[for_each].

Ltac case_step :=
  match goal with
  | |- context [match ?x with _ => _ end] =>
      lazymatch x with
      | context [match _ with _ => _ end] => fail
      | _ => destruct x eqn:?; cbn
      end
  end.

Ltac solve_calls :=
  rewrite <- ?app_assoc;
  first [ reflexivity | symmetry; apply app_nil_r ].


(* ===================================================================== *)
(** * Part 6. Theorems                                                   *)
(* ===================================================================== *)

(** ** Strings *)

Lemma append_nil_l (b : string) : "" +:+ b = b.
Proof. reflexivity. Qed.

Lemma append_cons (x : ascii) (a b : string) :
  String x a +:+ b = String x (a +:+ b).
Proof. reflexivity. Qed.

Lemma append_assoc (a b c : string) : (a +:+ b) +:+ c = a +:+ (b +:+ c).
Proof.
  induction a as [|x a IH]; [done |]. by rewrite !append_cons, IH.
Qed.

Lemma append_empty_r (a : string) : a +:+ "" = a.
Proof. induction a as [|x a IH]; [done |]. by rewrite append_cons, IH. Qed.

Lemma length_append (a b : string) :
  String.length (a +:+ b) = String.length a + String.length b.
Proof.
  induction a as [|x a IH]; [done |]. rewrite append_cons. simpl.
  by rewrite IH.
Qed.

Lemma prefix_nil (s : string) : String.prefix "" s = true.
Proof. by destruct s. Qed.

Lemma prefix_append (old b : string) : String.prefix old (old +:+ b) = true.
Proof.
  induction old as [|x old IH]; [apply prefix_nil |].
  rewrite append_cons. simpl.
  destruct (Ascii.ascii_dec x x); [exact IH | done].
Qed.

Lemma prefix_append_r (old x y : string) :
  String.prefix old x = true -> String.prefix old (x +:+ y) = true.
Proof.
  revert x. induction old as [|o old IH]; intros x;
    [intros _; apply prefix_nil |].
  destruct x as [|c x]; [done |]. rewrite append_cons. simpl.
  destruct (Ascii.ascii_dec o c); [apply IH | done].
Qed.

(** Whether [old] starts a string is decided by the first
    [length old] characters. *)
Lemma prefix_append_long (old x y : string) :
  String.length old <= String.length x ->
  String.prefix old (x +:+ y) = String.prefix old x.
Proof.
  revert x. induction old as [|o old IH]; intros x Hlen;
    [by rewrite !prefix_nil |].
  destruct x as [|c x]; simpl in Hlen; [lia |]. rewrite append_cons. simpl.
  destruct (Ascii.ascii_dec o c); [apply IH; lia | done].
Qed.

(** ** [str.replace] *)

Lemma replace_scan_skip (old new x b : string) :
  replace_scan old new (String.length x) (x +:+ b) = replace_scan old new 0 b.
Proof.
  induction x as [|c x IH]; [by destruct b |]. rewrite append_cons. exact IH.
Qed.

(** At an occurrence, the scan emits [new] and goes on behind it. *)
Lemma replace_scan_match (old new b : string) :
  old <> "" ->
  replace_scan old new 0 (old +:+ b) = new +:+ replace_scan old new 0 b.
Proof.
  intros Hne. destruct old as [|c old]; [done |].
  rewrite append_cons. cbn [replace_scan]. rewrite <- append_cons.
  rewrite prefix_append.
  replace (String.length (String c old) - 1) with (String.length old)
    by (simpl; lia).
  by rewrite replace_scan_skip.
Qed.

(** Where no occurrence starts, the scan copies. *)
Lemma replace_scan_unmatched (old new a tail : string) :
  unmatched old a tail = true ->
  replace_scan old new 0 (a +:+ tail) = a +:+ replace_scan old new 0 tail.
Proof.
  induction a as [|c a IH]; intros H; [done |].
  cbn [unmatched] in H. apply andb_prop in H as [Hp Hu].
  apply negb_true_iff in Hp. rewrite append_cons in Hp.
  rewrite !append_cons. cbn [replace_scan]. rewrite Hp.
  f_equal. by apply IH.
Qed.

(** If [old] is first found in [a + old] at the end, no occurrence starts
    inside [a], whatever follows [old]. *)
Lemma find_unmatched (old a b : string) :
  str_find (a +:+ old) old = Some (String.length a) ->
  unmatched old a (old +:+ b) = true.
Proof.
  induction a as [|c a IH]; intros H; [done |].
  cbn [unmatched]. rewrite append_cons in H. cbn [str_find] in H.
  destruct (String.prefix old (String c (a +:+ old))) eqn:Hp; [done |].
  destruct (str_find (a +:+ old) old) as [n|] eqn:Hf; [| done].
  simpl in H. injection H as ->.
  rewrite IH by done. rewrite andb_true_r. apply negb_true_iff.
  rewrite <- append_assoc.
  rewrite prefix_append_long; [by rewrite append_cons |].
  rewrite length_append. lia.
Qed.

Lemma find_none_unmatched (old s : string) :
  str_find s old = None -> unmatched old s "" = true.
Proof.
  induction s as [|c s IH]; intros H; [done |].
  cbn [unmatched]. cbn [str_find] in H. rewrite append_empty_r.
  destruct (String.prefix old (String c s)); [done |].
  destruct (str_find s old) eqn:Hf; [done |]. by rewrite IH.
Qed.

(** [str.replace] along a text cut at the occurrences of [old]. *)
Lemma str_replace_segments (old new : string) (segs : list string) :
  old <> "" ->
  cut_at old segs ->
  str_replace (String.concat old segs) old new = String.concat new segs.
Proof.
  intros Hne.
  assert (str_replace (String.concat old segs) old new
          = replace_scan old new 0 (String.concat old segs)) as ->.
  { destruct old; [done | reflexivity]. }
  induction segs as [|s segs IH]; intros Hcut; [done |].
  destruct segs as [|s' segs].
  - cbn [String.concat]. rewrite <- (append_empty_r s) at 1.
    by rewrite replace_scan_unmatched, append_empty_r
      by (by apply find_none_unmatched).
  - destruct Hcut as [Hs Hcut].
    change (String.concat old (s :: s' :: segs))
      with (s +:+ old +:+ String.concat old (s' :: segs)).
    change (String.concat new (s :: s' :: segs))
      with (s +:+ new +:+ String.concat new (s' :: segs)).
    rewrite replace_scan_unmatched by (by apply find_unmatched).
    rewrite replace_scan_match by done. by rewrite IH.
Qed.

Lemma prefix_split (old t : string) :
  String.prefix old t = true -> exists b, t = old +:+ b.
Proof.
  revert t. induction old as [|o old IH]; intros t H; [by exists t |].
  destruct t as [|c t]; [done |]. simpl in H.
  destruct (Ascii.ascii_dec o c) as [-> |]; [| done].
  destruct (IH t H) as [b ->]. by exists b.
Qed.

(** Where [str.find] finds [old], the text splits there, and the part
    before holds no earlier occurrence. *)
Lemma find_split (old t : string) (i : nat) :
  str_find t old = Some i ->
  exists a b,
    t = a +:+ old +:+ b
    /\ String.length a = i
    /\ str_find (a +:+ old) old = Some (String.length a).
Proof.
  revert i. induction t as [|c t IH]; intros i H.
  - cbn [str_find] in H.
    destruct (String.prefix old "") eqn:Hp; [| done].
    injection H as <-. destruct (prefix_split _ _ Hp) as [b Hb].
    exists "", b. split; [done |]. split; [done |].
    rewrite append_nil_l. destruct old; [done |]. by destruct b.
  - cbn [str_find] in H.
    destruct (String.prefix old (String c t)) eqn:Hp.
    + injection H as <-. destruct (prefix_split _ _ Hp) as [b Hb].
      exists "", b. split; [done |]. split; [done |].
      rewrite append_nil_l.
      destruct old as [|o old]; [done |]. cbn [str_find].
      by rewrite <- (append_empty_r (String o old)) at 2;
        rewrite prefix_append.
    + destruct (str_find t old) as [j |] eqn:Hf; [| done].
      injection H as <-.
      destruct (IH j eq_refl) as (a & b & -> & <- & Ha).
      exists (String c a), b. split; [done |]. split; [done |].
      rewrite append_cons. cbn [str_find].
      rewrite <- append_assoc in Hp. rewrite <- append_cons in Hp.
      rewrite prefix_append_long in Hp
        by (cbn; rewrite length_append; lia).
      by rewrite Hp, Ha.
Qed.

(** Every text is cut in this way. *)
Lemma cut_exists (old : string) :
  old <> "" ->
  forall t, exists segs,
    segs <> [] /\ t = String.concat old segs /\ cut_at old segs.
Proof.
  intros Hne t.
  remember (String.length t) as n eqn:Hn.
  revert t Hn. induction n as [n IH] using lt_wf_ind. intros t ->.
  destruct (str_find t old) as [i |] eqn:Hf.
  - destruct (find_split _ _ _ Hf) as (a & b & -> & _ & Ha).
    destruct (IH (String.length b)) with (t := b)
      as (segs & Hnil & -> & Hcut); [| done |].
    { rewrite !length_append. destruct old; [done |]. cbn. lia. }
    destruct segs as [|s segs]; [done |].
    exists (a :: s :: segs). split; [done |]. split; [done |].
    by split.
  - exists [t]. by split.
Qed.

Lemma placeholder_nonempty (i : string) : placeholder i <> "".
Proof. done. Qed.

(** ** Markdown synthesis *)

Lemma page_step_acc (incl : bool) (acc : list string) (p : OCRPageObject) :
  page_step incl acc p = acc ++ page_step incl [] p.
Proof.
  unfold page_step. destruct (markdown p); [done | by rewrite app_nil_r].
Qed.

Lemma foldl_page_step (incl : bool) (ps : list OCRPageObject) :
  forall acc,
    foldl (page_step incl) acc ps
    = acc ++ concat (page_step incl [] <$> ps).
Proof.
  induction ps as [|p ps IH]; intros acc; simpl.
  - by rewrite app_nil_r.
  - rewrite IH, (page_step_acc incl acc p). by rewrite <- app_assoc.
Qed.

Lemma foldl_page_step_app (incl : bool) (ps qs : list OCRPageObject) :
  foldl (page_step incl) [] (ps ++ qs)
  = foldl (page_step incl) [] ps ++ foldl (page_step incl) [] qs.
Proof.
  rewrite foldl_app, (foldl_page_step incl qs (foldl _ _ ps)).
  by rewrite (foldl_page_step incl qs []).
Qed.

Lemma foldl_page_step_cons (incl : bool) (p : OCRPageObject)
    (ps : list OCRPageObject) :
  foldl (page_step incl) [] (p :: ps)
  = page_step incl [] p ++ foldl (page_step incl) [] ps.
Proof. apply (foldl_page_step_app incl [p] ps). Qed.

(** The early return of lines 54-56 agrees with the join of no part. *)
Lemma generate_parts (incl : bool) (ps : list OCRPageObject) :
  generate_markdown_from_response {| pages := Some ps |} incl
  = String.concat PAGE_SEPARATOR (foldl (page_step incl) [] ps).
Proof. by destruct ps. Qed.

Lemma page_step_plain (ps : list OCRPageObject) :
  concat (page_step false [] <$> ps) = omap markdown ps.
Proof.
  induction ps as [|p ps IH]; [done |].
  change (concat (page_step false [] <$> p :: ps))
    with (page_step false [] p ++ concat (page_step false [] <$> ps)).
  rewrite IH. unfold page_step. simpl. by destruct (markdown p).
Qed.

(** C3. Separator exactness: the synthesized Markdown is the join of the
    page strings with the literal separator LF LF "---" LF LF.  Each page
    contributes [page_step include_images [] page], its own string; with
    embedding off these are the pages' texts; a three-page result
    synthesizes to [page1 + sep + page2 + sep + page3]. *)
Theorem separator_exactness :
  String.list_ascii_of_string PAGE_SEPARATOR
  = ["010"; "010"; "-"; "-"; "-"; "010"; "010"]%char
  /\ (forall (include_images : bool) (ps : list OCRPageObject),
        generate_markdown_from_response {| pages := Some ps |} include_images
        = String.concat PAGE_SEPARATOR
            (concat (page_step include_images [] <$> ps)))
  /\ (forall ps : list OCRPageObject,
        generate_markdown_from_response {| pages := Some ps |} false
        = String.concat PAGE_SEPARATOR (omap markdown ps))
  /\ (forall (page1 page2 page3 : string) (i1 i2 i3 : list OCRImageObject),
        generate_markdown_from_response
          {| pages := Some [ {| markdown := Some page1; images := i1 |};
                             {| markdown := Some page2; images := i2 |};
                             {| markdown := Some page3; images := i3 |} ] |}
          false
        = page1 +:+ PAGE_SEPARATOR +:+ page2 +:+ PAGE_SEPARATOR +:+ page3).
Proof.
  split; [reflexivity |]. split; [| split].
  - intros incl ps. by rewrite generate_parts, foldl_page_step.
  - intros ps. by rewrite generate_parts, foldl_page_step, page_step_plain.
  - reflexivity.
Qed.

(** ** The dictionary of images *)

Lemma dict_set_keys {V} (d : dict V) (k : string) (v : V) :
  (dict_set d k v).*1 = if bool_decide (k ∈ d.*1) then d.*1 else d.*1 ++ [k].
Proof.
  induction d as [|[k' v'] d IH]; [done |].
  cbn [dict_set]. destruct (String.eqb_spec k k') as [-> | Hne].
  - cbn. by rewrite bool_decide_eq_true_2 by apply list_elem_of_here.
  - cbn. rewrite IH. case_bool_decide as Hin.
    + by rewrite bool_decide_eq_true_2 by by apply list_elem_of_further.
    + rewrite bool_decide_eq_false_2; [done |].
      rewrite elem_of_cons. tauto.
Qed.

Lemma dict_set_NoDup {V} (d : dict V) (k : string) (v : V) :
  NoDup d.*1 -> NoDup (dict_set d k v).*1.
Proof.
  intros Hd. rewrite dict_set_keys. case_bool_decide as Hin; [done |].
  apply NoDup_app. split; [done |]. split; [| apply NoDup_singleton].
  intros x Hx. rewrite list_elem_of_singleton. by intros ->.
Qed.

Lemma dict_set_here {V} (d : dict V) (k : string) (v : V) :
  (k, v) ∈ dict_set d k v.
Proof.
  induction d as [|[k' v'] d IH]; [apply list_elem_of_here |].
  cbn [dict_set]. destruct (String.eqb k k');
    [apply list_elem_of_here | by apply list_elem_of_further].
Qed.

Lemma dict_set_other {V} (d : dict V) (k k' : string) (v v' : V) :
  k' <> k -> (k', v') ∈ dict_set d k v <-> (k', v') ∈ d.
Proof.
  intros Hne. induction d as [|[k0 v0] d IH].
  - cbn. rewrite list_elem_of_singleton. split; [| by intros ?%elem_of_nil].
    intros H. inversion H. by subst.
  - cbn [dict_set]. destruct (String.eqb_spec k k0) as [-> | Hk].
    + rewrite !elem_of_cons.
      split; (intros [H | ?]; [inversion H; by subst | tauto]).
    + rewrite !elem_of_cons, IH. done.
Qed.

Lemma dict_key_unique {V} (d : dict V) (k : string) (v v' : V) :
  NoDup d.*1 -> (k, v) ∈ d -> (k, v') ∈ d -> v = v'.
Proof.
  induction d as [|[k0 v0] d IH]; [by intros _ ?%elem_of_nil |].
  cbn. intros [Hnot Hd]%NoDup_cons. rewrite !elem_of_cons.
  intros [H1 | H1] [H2 | H2].
  - inversion H1. inversion H2. by subst.
  - inversion H1. subst.
    destruct Hnot. by apply (list_elem_of_fmap_2' fst _ (k0, v')).
  - inversion H2. subst.
    destruct Hnot. by apply (list_elem_of_fmap_2' fst _ (k0, v)).
  - by apply IH.
Qed.

Lemma image_data_NoDup (imgs : list OCRImageObject) :
  NoDup (foldl image_data_step [] imgs).*1.
Proof.
  induction imgs as [|img imgs IH] using rev_ind; [apply NoDup_nil_2 |].
  rewrite foldl_snoc. unfold image_data_step.
  destruct (img_id img), (image_base64 img); try done.
  by apply dict_set_NoDup.
Qed.

(** ** Characters *)

Lemma lacks_append (c : ascii) (a b : string) :
  lacks c (a +:+ b) = lacks c a && lacks c b.
Proof.
  induction a as [|x a IH]; [done |].
  rewrite append_cons. cbn [lacks]. by rewrite IH, andb_assoc.
Qed.

(** A prefix that lacks [c] ends before the first [c]. *)
Lemma prefix_stops_at (c : ascii) (r x tail : string) :
  lacks c r = true ->
  String.prefix r (x +:+ String c tail) = true ->
  String.prefix r x = true.
Proof.
  revert x. induction r as [|a r IH]; intros x Hr Hp; [apply prefix_nil |].
  cbn [lacks] in Hr. apply andb_prop in Hr as [Ha Hr].
  apply negb_true_iff, Ascii.eqb_neq in Ha.
  destruct x as [|d x].
  - rewrite append_nil_l in Hp. cbn [String.prefix] in Hp.
    by destruct (Ascii.ascii_dec a c).
  - rewrite append_cons in Hp. cbn [String.prefix] in Hp |- *.
    destruct (Ascii.ascii_dec a d); [by apply IH | done].
Qed.

(** No occurrence of ["!" + r] starts in a text that lacks ["!"]. *)
Lemma unmatched_lacks (r a tail : string) :
  lacks "!" a = true -> unmatched (String "!" r) a tail = true.
Proof.
  induction a as [|x a IH]; intros Ha; [done |].
  cbn [lacks] in Ha. apply andb_prop in Ha as [Hx Ha].
  apply negb_true_iff, Ascii.eqb_neq in Hx.
  cbn [unmatched]. rewrite IH by done. rewrite andb_true_r.
  apply negb_true_iff. rewrite append_cons. cbn [String.prefix].
  destruct (Ascii.ascii_dec "!" x); [by destruct Hx | done].
Qed.

(** No occurrence of ["!" + r] starts in a segment that holds none, when
    [r] lacks ["!"] and the segment is followed by ["!"]. *)
Lemma unmatched_before (r s tail : string) :
  lacks "!" r = true ->
  str_find s (String "!" r) = None ->
  unmatched (String "!" r) s (String "!" tail) = true.
Proof.
  intros Hr. induction s as [|x s IH]; intros Hf; [done |].
  cbn [str_find] in Hf.
  destruct (String.prefix (String "!" r) (String x s)) eqn:Hp; [done |].
  destruct (str_find s (String "!" r)) eqn:Hs; [done |].
  cbn [unmatched]. rewrite IH by done. rewrite andb_true_r.
  apply negb_true_iff. rewrite append_cons. cbn [String.prefix] in Hp |- *.
  destruct (Ascii.ascii_dec "!" x); [| done].
  destruct (String.prefix r (s +:+ String "!" tail)) eqn:Hq; [| done].
  by rewrite (prefix_stops_at "!" r s tail Hr Hq) in Hp.
Qed.

(** Two ids that lack ["]"] and are followed by ["]"] agree when one
    text starts with the other. *)
Lemma prefix_key (k i x y : string) :
  lacks "]" k = true -> lacks "]" i = true ->
  String.prefix (k +:+ String "]" x) (i +:+ String "]" y) = true ->
  k = i.
Proof.
  revert i. induction k as [|a k IH]; intros i Hk Hi Hp.
  - destruct i as [|c i]; [done |].
    cbn [lacks] in Hi. apply andb_prop in Hi as [Hc _].
    apply negb_true_iff, Ascii.eqb_neq in Hc.
    rewrite append_nil_l, append_cons in Hp. cbn [String.prefix] in Hp.
    destruct (Ascii.ascii_dec "]" c); [by destruct Hc | done].
  - cbn [lacks] in Hk. apply andb_prop in Hk as [Ha Hk].
    apply negb_true_iff, Ascii.eqb_neq in Ha.
    destruct i as [|c i].
    + rewrite append_nil_l, append_cons in Hp. cbn [String.prefix] in Hp.
      destruct (Ascii.ascii_dec a "]"); [by destruct Ha | done].
    + cbn [lacks] in Hi. apply andb_prop in Hi as [_ Hi].
      rewrite !append_cons in Hp. cbn [String.prefix] in Hp.
      destruct (Ascii.ascii_dec a c) as [-> |]; [| done].
      f_equal. by apply IH.
Qed.

Lemma placeholder_is_replacement (i : string) :
  placeholder i = replacement i i.
Proof. reflexivity. Qed.

Lemma replacement_unfold (i body : string) :
  replacement i body
  = String "!" (String "[" (i +:+ String "]" ("(" +:+ body +:+ ")"))).
Proof. reflexivity. Qed.

(** The reference to another image holds no occurrence of the
    placeholder of [k]. *)
Lemma unmatched_token (k i body tail : string) :
  lacks "!" k = true -> lacks "]" k = true ->
  lacks "!" i = true -> lacks "]" i = true ->
  lacks "!" body = true ->
  i <> k ->
  unmatched (placeholder k) (replacement i body) tail = true.
Proof.
  intros Hk1 Hk2 Hi1 Hi2 Hb Hne.
  rewrite placeholder_is_replacement, !replacement_unfold.
  cbn [unmatched]. rewrite andb_true_iff. split.
  - apply negb_true_iff. rewrite !append_cons. cbn [String.prefix].
    destruct (String.prefix _ _) eqn:Hp; [| done].
    rewrite append_assoc in Hp. rewrite append_cons in Hp.
    destruct Hne. symmetry. by apply (prefix_key _ _ _ _ Hk2 Hi2 Hp).
  - apply unmatched_lacks.
    repeat (rewrite lacks_append || cbn [lacks]).
    rewrite Hi1, Hb. reflexivity.
Qed.

Lemma unmatched_before_placeholder (k s tail : string) :
  lacks "!" k = true ->
  str_find s (placeholder k) = None ->
  unmatched (placeholder k) s (String "!" tail) = true.
Proof.
  intros Hk. rewrite placeholder_is_replacement, replacement_unfold.
  apply unmatched_before.
  repeat (rewrite lacks_append || cbn [lacks]).
  rewrite Hk. reflexivity.
Qed.

Lemma lacks_png_data_url (payload : string) :
  lacks "!" payload = true -> lacks "!" (png_data_url payload) = true.
Proof.
  intros Hp. unfold png_data_url. by rewrite lacks_append, Hp.
Qed.

Lemma render_ext (t1 t2 : string -> string -> string)
    (pieces : list (string * (string * string))) (last : string) :
  Forall (fun '(_, (i, p)) => t1 i p = t2 i p) pieces ->
  render t1 pieces last = render t2 pieces last.
Proof.
  induction 1 as [|[s [i p]] pieces Hp _ IH]; [done |].
  cbn [render]. by rewrite Hp, IH.
Qed.

(** One [str.replace] on a laid-out text: the references that read as
    the placeholder of [k] become [new], the others stay. *)
Lemma replace_rendered (k new : string) (t1 t2 : string -> string -> string)
    (pieces : list (string * (string * string))) (last : string) :
  lacks "!" k = true ->
  Forall (fun '(s, (i, p)) =>
            str_find s (placeholder k) = None
            /\ ((t1 i p = placeholder k /\ t2 i p = new)
                \/ (t2 i p = t1 i p
                    /\ (exists x, t1 i p = String "!" x)
                    /\ forall tail,
                         unmatched (placeholder k) (t1 i p) tail = true)))
         pieces ->
  str_find last (placeholder k) = None ->
  str_replace (render t1 pieces last) (placeholder k) new
  = render t2 pieces last.
Proof.
  intros Hk Hpieces Hlast.
  change (replace_scan (placeholder k) new 0 (render t1 pieces last)
          = render t2 pieces last).
  induction Hpieces as [|[s [i p]] pieces [Hs Htok] _ IH].
  - cbn [render]. rewrite <- (append_empty_r last) at 1.
    rewrite replace_scan_unmatched by (by apply find_none_unmatched).
    apply append_empty_r.
  - cbn [render].
    destruct Htok as [[H1 H2] | (H2 & [x Hx] & Hun)].
    + rewrite H1, H2.
      rewrite replace_scan_unmatched
        by (by apply unmatched_before_placeholder).
      rewrite replace_scan_match by apply placeholder_nonempty.
      by rewrite IH.
    + rewrite H2.
      rewrite replace_scan_unmatched.
      2: { rewrite Hx, append_cons. by apply unmatched_before_placeholder. }
      rewrite replace_scan_unmatched by apply Hun.
      by rewrite IH.
Qed.

Lemma token_after_starts (done : list string) (i p : string) :
  exists x, token_after done i p = String "!" x.
Proof. unfold token_after. case_bool_decide; by eexists. Qed.

(** The substitutions for a whole dictionary on a laid-out text. *)
Lemma replace_images_rendered (d : dict string) :
  forall (done : list string)
         (pieces : list (string * (string * string))) (last : string),
    NoDup (done ++ d.*1) ->
    Forall (fun k => lacks "!" k = true /\ lacks "]" k = true) d.*1 ->
    Forall (fun '(s, (i, p)) =>
              lacks "!" i = true /\ lacks "]" i = true
              /\ lacks "!" p = true
              /\ (forall u, (i, u) ∈ d -> u = png_data_url p)
              /\ Forall (fun k => str_find s (placeholder k) = None) d.*1)
           pieces ->
    Forall (fun k => str_find last (placeholder k) = None) d.*1 ->
    foldl (fun updated_markdown '(img_id, base64_data_url) =>
             str_replace updated_markdown
               (placeholder img_id) (replacement img_id base64_data_url))
          (render (token_after done) pieces last) d
    = render (token_after (done ++ d.*1)) pieces last.
Proof.
  induction d as [|[k u] d IH]; intros done pieces last Hnd Hkeys Hp Hlast.
  - cbn. by rewrite app_nil_r.
  - cbn [foldl fmap list_fmap fst] in *.
    apply Forall_cons in Hkeys as [[Hk1 Hk2] Hkeys].
    apply Forall_cons in Hlast as [Hlast0 Hlast].
    assert (k ∉ done) as Hfresh.
    { intros Hin. apply NoDup_app in Hnd as (_ & Hdis & _).
      apply (Hdis k Hin). apply list_elem_of_here. }
    rewrite (replace_rendered k (replacement k u) (token_after done)
               (token_after (done ++ [k])) pieces last Hk1).
    + replace (done ++ k :: d.*1) with ((done ++ [k]) ++ d.*1)
        by by rewrite <- app_assoc.
      apply IH.
      * by rewrite <- app_assoc.
      * exact Hkeys.
      * eapply Forall_impl; [exact Hp |].
        intros [s [i p]] (Hi1 & Hi2 & Hp1 & Hu & Hs).
        repeat split; try done.
        -- intros u' Hin. apply Hu. by apply list_elem_of_further.
        -- by apply Forall_cons in Hs as [_ Hs].
      * exact Hlast.
    + eapply Forall_impl; [exact Hp |].
      intros [s [i p]] (Hi1 & Hi2 & Hp1 & Hu & Hs).
      apply Forall_cons in Hs as [Hs _]. split; [exact Hs |].
      destruct (decide (i = k)) as [-> | Hne].
      * left. unfold token_after.
        rewrite bool_decide_eq_false_2 by done.
        rewrite bool_decide_eq_true_2
          by (apply elem_of_app; right; apply list_elem_of_here).
        split; [done |]. f_equal. symmetry. apply Hu, list_elem_of_here.
      * right. split; [| split; [apply token_after_starts |]].
        -- unfold token_after.
           destruct (decide (i ∈ done)) as [Hin | Hnin].
           ++ rewrite !bool_decide_eq_true_2;
                [done | done | by apply elem_of_app; left].
           ++ rewrite !bool_decide_eq_false_2; [done | done |].
              rewrite elem_of_app, list_elem_of_singleton. tauto.
        -- intros tail. unfold token_after. case_bool_decide.
           ++ by apply unmatched_token; [.. | apply lacks_png_data_url |].
           ++ rewrite (placeholder_is_replacement i).
              by apply unmatched_token.
    + exact Hlast0.
Qed.

Lemma image_data_last (earlier later : list OCRImageObject)
    (id payload : string) :
  Forall (fun img => img_id img <> Some id \/ image_base64 img = None)
         later ->
  forall data_url,
    (id, data_url)
    ∈ foldl image_data_step []
        (earlier ++ {| img_id := Some id; image_base64 := Some payload |}
                 :: later)
    <-> data_url = png_data_url payload.
Proof.
  intros Hafter.
  induction later as [|img later IH] using rev_ind.
  - rewrite foldl_snoc. cbn. intros u. split.
    + intros Hu. eapply dict_key_unique; [| exact Hu | apply dict_set_here].
      apply dict_set_NoDup, image_data_NoDup.
    + intros ->. apply dict_set_here.
  - apply Forall_app in Hafter as [Hafter Himg].
    rewrite Forall_singleton in Himg.
    rewrite app_comm_cons, app_assoc, foldl_snoc. intros u.
    rewrite <- (IH Hafter u). unfold image_data_step at 1.
    destruct (img_id img) as [i |] eqn:Hi; [| done].
    destruct (image_base64 img) as [p |] eqn:Hp; [| done].
    apply dict_set_other. destruct Himg as [Hne | ?]; congruence.
Qed.

Lemma image_data_effective (imgs : list OCRImageObject)
    (id payload : string) :
  effective imgs id payload ->
  (id, png_data_url payload) ∈ foldl image_data_step [] imgs.
Proof.
  intros (earlier & later & -> & Hlater).
  by apply (image_data_last earlier later id payload Hlater).
Qed.

Lemma effective_elem (imgs : list OCRImageObject) (id payload : string) :
  effective imgs id payload ->
  {| img_id := Some id; image_base64 := Some payload |} ∈ imgs.
Proof.
  intros (earlier & later & -> & _).
  apply elem_of_app. right. apply list_elem_of_here.
Qed.

Lemma effective_snoc (imgs : list OCRImageObject) (img : OCRImageObject)
    (id payload : string) :
  img_id img <> Some id \/ image_base64 img = None ->
  effective imgs id payload -> effective (imgs ++ [img]) id payload.
Proof.
  intros Himg (earlier & later & -> & Hlater).
  exists earlier, (later ++ [img]). split.
  - by rewrite <- app_assoc.
  - apply Forall_app. split; [exact Hlater |]. by apply Forall_singleton.
Qed.

(** Every entry of the dictionary comes from an image of the page that
    no later image overrides. *)
Lemma image_data_sound (imgs : list OCRImageObject) (k u : string) :
  (k, u) ∈ foldl image_data_step [] imgs ->
  exists payload, u = png_data_url payload /\ effective imgs k payload.
Proof.
  induction imgs as [|img imgs IH] using rev_ind;
    [by intros ?%elem_of_nil |].
  rewrite foldl_snoc. unfold image_data_step at 1.
  destruct (img_id img) as [i |] eqn:Hi.
  2: { intros (p & -> & He)%IH. exists p. split; [done |].
       apply effective_snoc; [| done]. left. by rewrite Hi. }
  destruct (image_base64 img) as [p |] eqn:Hp.
  2: { intros (p & -> & He)%IH. exists p. split; [done |].
       apply effective_snoc; [| done]. by right. }
  destruct (decide (k = i)) as [-> | Hne].
  - intros Hu. exists p. split.
    + eapply dict_key_unique; [| exact Hu | apply dict_set_here].
      apply dict_set_NoDup, image_data_NoDup.
    + exists imgs, []. split; [| done]. destruct img. cbn in *. by subst.
  - rewrite dict_set_other by done.
    intros (p' & -> & He)%IH. exists p'. split; [done |].
    apply effective_snoc; [| done]. left. rewrite Hi. congruence.
Qed.

Lemma image_data_keys (imgs : list OCRImageObject) (id payload : string) :
  {| img_id := Some id; image_base64 := Some payload |} ∈ imgs ->
  id ∈ (foldl image_data_step [] imgs).*1.
Proof.
  induction imgs as [|img imgs IH] using rev_ind;
    [by intros ?%elem_of_nil |].
  rewrite foldl_snoc, elem_of_app, list_elem_of_singleton.
  intros [Hin | <-].
  - specialize (IH Hin). unfold image_data_step.
    destruct (img_id img), (image_base64 img); try done.
    rewrite dict_set_keys. case_bool_decide; [done |].
    apply elem_of_app. by left.
  - cbn. apply (list_elem_of_fmap_2' fst _ (id, png_data_url payload));
      [apply dict_set_here | done].
Qed.

Lemma replace_images_fold (text : string) (d : dict string) :
  replace_images_in_markdown text d
  = foldl (fun updated_markdown '(img_id, base64_data_url) =>
             str_replace updated_markdown
               (placeholder img_id) (replacement img_id base64_data_url))
          text d.
Proof. by destruct d. Qed.

(** What a page with a text contributes when embedding is enabled. *)
Lemma page_step_embedding (text : string) (imgs : list OCRImageObject) :
  page_step true [] {| markdown := Some text; images := imgs |}
  = [replace_images_in_markdown text (foldl image_data_step [] imgs)].
Proof. by destruct imgs. Qed.

(** ** Occurrences *)

Lemma find_lt (a sub : string) (j : nat) :
  sub <> "" -> str_find a sub = Some j -> j < String.length a.
Proof.
  intros Hne. revert j. induction a as [|c a IH]; intros j Hf.
  - cbn [str_find] in Hf. by destruct sub.
  - cbn [str_find] in Hf.
    destruct (String.prefix sub (String c a)); [injection Hf as <-; cbn; lia |].
    destruct (str_find a sub) as [j' |]; [| done].
    injection Hf as <-. specialize (IH j' eq_refl). cbn. lia.
Qed.

Lemma find_append_le (a r sub : string) (j : nat) :
  str_find a sub = Some j ->
  exists j', str_find (a +:+ r) sub = Some j' /\ j' <= j.
Proof.
  revert j. induction a as [|c a IH]; intros j Hf.
  - cbn [str_find] in Hf.
    destruct (String.prefix sub "") eqn:Hp; [| done].
    destruct sub; [| done]. exists 0. split; [| lia].
    rewrite append_nil_l. destruct r; reflexivity.
  - cbn [str_find] in Hf. rewrite append_cons. cbn [str_find].
    rewrite <- append_cons.
    destruct (String.prefix sub (String c a)) eqn:Hp.
    + rewrite (prefix_append_r _ _ r Hp). exists 0. split; [done | lia].
    + destruct (str_find a sub) as [j0 |]; [| done]. injection Hf as <-.
      destruct (IH j0 eq_refl) as (j' & -> & Hle).
      destruct (String.prefix sub (String c a +:+ r)).
      * exists 0. split; [done | lia].
      * exists (S j'). split; [done | lia].
Qed.

(** Among several patterns, either none occurs or one occurs first. *)
Lemma first_occurrence (olds : list string) (t : string) :
  Forall (fun old => str_find t old = None) olds
  \/ exists old i,
       old ∈ olds /\ str_find t old = Some i
       /\ Forall (fun old' => forall j, str_find t old' = Some j -> i <= j)
                 olds.
Proof.
  induction olds as [|old olds IH]; [by left |].
  destruct (str_find t old) as [i |] eqn:Hf.
  - destruct IH as [Hnone | (old0 & i0 & Hin & Hf0 & Hmin)].
    + right. exists old, i. split; [apply list_elem_of_here |].
      split; [done |]. constructor.
      * intros j. rewrite Hf. intros [= <-]. lia.
      * eapply Forall_impl; [exact Hnone |]. intros o Ho j. by rewrite Ho.
    + destruct (decide (i <= i0)) as [Hle | Hgt].
      * right. exists old, i. split; [apply list_elem_of_here |].
        split; [done |]. constructor.
        -- intros j. rewrite Hf. intros [= <-]. lia.
        -- eapply Forall_impl; [exact Hmin |]. intros o Ho j Hj.
           specialize (Ho j Hj). lia.
      * right. exists old0, i0. split; [by apply list_elem_of_further |].
        split; [done |]. constructor; [| done].
        intros j. rewrite Hf. intros [= <-]. lia.
  - destruct IH as [Hnone | (old0 & i0 & Hin & Hf0 & Hmin)].
    + left. by constructor.
    + right. exists old0, i0. split; [by apply list_elem_of_further |].
      split; [done |]. constructor; [| done]. intros j. by rewrite Hf.
Qed.

(** Every text is laid out as segments that hold no placeholder of the
    page, and references to its images. *)
Lemma layout_exists (imgs : list OCRImageObject) (text : string) :
  exists pieces last,
    text = render (fun id _ => placeholder id) pieces last
    /\ Forall (fun '(s, (id, payload)) =>
                 effective imgs id payload /\ clear_of imgs s) pieces
    /\ clear_of imgs last.
Proof.
  remember (String.length text) as n eqn:Hn.
  revert text Hn. induction n as [n IH] using lt_wf_ind. intros text ->.
  set (keys := (foldl image_data_step [] imgs).*1).
  destruct (first_occurrence (placeholder <$> keys) text)
    as [Hnone | (old & i & Hin & Hf & Hmin)].
  - exists [], text. split; [done |]. split; [done |].
    intros id payload Himg. rewrite Forall_fmap in Hnone.
    rewrite Forall_forall in Hnone. apply Hnone.
    by apply (image_data_keys imgs id payload).
  - apply list_elem_of_fmap in Hin as (k & -> & Hk).
    destruct (find_split _ _ _ Hf) as (a & b & -> & Hlen & _).
    destruct (IH (String.length b)) with (text := b)
      as (pieces & last & -> & Hpieces & Hlast); [| done |].
    { unfold placeholder. rewrite !length_append. cbn. lia. }
    apply list_elem_of_fmap in Hk as ([k' u] & -> & Hku).
    destruct (image_data_sound imgs k' u Hku) as (p & -> & Heff).
    exists ((a, (k', p)) :: pieces), last.
    split; [done |]. split; [| done].
    constructor; [| done]. split; [done |].
    intros id payload Himg.
    destruct (str_find a (placeholder id)) as [j |] eqn:Hj; [| done].
    exfalso.
    pose proof (find_lt _ _ _ (placeholder_nonempty id) Hj) as Hlt.
    destruct (find_append_le a (placeholder k' +:+
                render (fun id _ => placeholder id) pieces last) _ _ Hj)
      as (j' & Hj' & Hle).
    rewrite Forall_fmap, Forall_forall in Hmin.
    specialize (Hmin id (image_data_keys imgs id payload Himg) j' Hj').
    cbn in Hlen. lia.
Qed.

(** C4. Placeholder substitution.  Embedding is enabled; a page carries
    the images [imgs].

    1. Images as a service issues them (no ["!"] and no ["]"] in an id,
       no ["!"] in a base64 payload).  Lay the page's text out as
       segments in which no placeholder of the page occurs, and
       references [![id](id)] to images [(id, payload)] the page
       carries (for an id carried twice, the payload is that of the
       last image with this id).  The page contributes the same
       segments, unchanged, with every reference replaced by
       [![id](data:image/png;base64,payload)].
    2. Every text has such a layout.
    3. Any ids and payloads.  The substitutions are made one image after
       the other, in the order in which the ids first appear on the
       page: cut the text that the earlier images' substitutions leave
       at the occurrences of [![id](id)], as a scan from the left finds
       them; these occurrences are replaced by
       [![id](data:image/png;base64,payload)], the segments are copied,
       and the later images' substitutions follow.  For a page with one
       image this is the text itself, cut and rejoined.
    4. Every text can be cut so. *)
Theorem placeholder_substitution
    (before after : list OCRPageObject) (imgs : list OCRImageObject) :
  let reference id := "![" +:+ id +:+ "](" +:+ id +:+ ")" in
  let embedded id payload :=
    "![" +:+ id +:+ "](data:image/png;base64," +:+ payload +:+ ")" in
  let synthesized text :=
    generate_markdown_from_response
      {| pages :=
           Some (before
                 ++ {| markdown := Some text; images := imgs |} :: after) |}
      true in
  let around part :=
    String.concat PAGE_SEPARATOR
      (foldl (page_step true) [] before
       ++ part :: foldl (page_step true) [] after) in
  (Forall (fun img => plain_image img = true) imgs ->
   forall (pieces : list (string * (string * string))) (last : string),
     Forall (fun '(s, (id, payload)) =>
               effective imgs id payload /\ clear_of imgs s) pieces ->
     clear_of imgs last ->
     synthesized (render (fun id _ => reference id) pieces last)
     = around (render embedded pieces last))
  /\ (forall text : string,
        exists pieces last,
          text = render (fun id _ => reference id) pieces last
          /\ Forall (fun '(s, (id, payload)) =>
                       effective imgs id payload /\ clear_of imgs s) pieces
          /\ clear_of imgs last)
  /\ (forall (earlier later : dict string) (id payload text : string)
             (segs : list string),
        foldl image_data_step [] imgs
        = earlier ++ (id, "data:image/png;base64," +:+ payload) :: later ->
        replace_images_in_markdown text earlier
        = String.concat (reference id) segs ->
        cut_at (reference id) segs ->
        synthesized text
        = around (replace_images_in_markdown
                    (String.concat (embedded id payload) segs) later))
  /\ (forall id text : string,
        exists segs,
          text = String.concat (reference id) segs
          /\ cut_at (reference id) segs).
Proof.
  intros reference embedded synthesized around.
  assert (forall text,
            synthesized text
            = around (replace_images_in_markdown text
                        (foldl image_data_step [] imgs))) as Hpage.
  { intros text. unfold synthesized, around.
    rewrite generate_parts, foldl_page_step_app, foldl_page_step_cons.
    by rewrite page_step_embedding. }
  split; [| split; [| split]].
  - intros Hplain pieces last Hpieces Hlast.
    rewrite Hpage. f_equal. rewrite replace_images_fold.
    set (d := foldl image_data_step [] imgs).
    assert (forall k, k ∈ d.*1 ->
              exists p, {| img_id := Some k; image_base64 := Some p |} ∈ imgs)
      as Hkeys.
    { intros k ([k' u] & -> & Hku)%list_elem_of_fmap.
      destruct (image_data_sound imgs k' u Hku) as (p & _ & He).
      exists p. by apply effective_elem. }
    rewrite Forall_forall in Hplain.
    rewrite (render_ext _ (token_after []) pieces last).
    2: { apply Forall_true. by intros [s [i p]]. }
    rewrite (replace_images_rendered d [] pieces last).
    + apply render_ext. eapply Forall_impl; [exact Hpieces |].
      intros [s [i p]] [He _]. unfold token_after.
      rewrite bool_decide_eq_true_2; [done |].
      apply (list_elem_of_fmap_2' fst _ (i, png_data_url p));
        [by apply image_data_effective | done].
    + apply image_data_NoDup.
    + apply Forall_forall. intros k [p Hp]%Hkeys.
      specialize (Hplain _ Hp). unfold plain_image in Hplain. cbn in Hplain.
      apply andb_prop in Hplain as [[H1 H2]%andb_prop _]. done.
    + eapply Forall_impl; [exact Hpieces |].
      intros [s [i p]] [He Hs].
      pose proof (Hplain _ (effective_elem _ _ _ He)) as Hi.
      unfold plain_image in Hi. cbn in Hi.
      apply andb_prop in Hi as [[H1 H2]%andb_prop H3].
      repeat split; try done.
      * intros u Hu. eapply dict_key_unique;
          [apply image_data_NoDup | exact Hu |].
        by apply image_data_effective.
      * apply Forall_forall. intros k [p' Hp']%Hkeys. by apply (Hs k p').
    + apply Forall_forall. intros k [p' Hp']%Hkeys. by apply (Hlast k p').
  - intros text. apply layout_exists.
  - intros earlier later id payload text segs Hd Htext Hcut.
    rewrite Hpage, Hd. f_equal.
    rewrite replace_images_fold in Htext.
    rewrite !replace_images_fold, foldl_app. cbn [foldl].
    rewrite Htext. f_equal.
    apply (str_replace_segments (placeholder id)
             (replacement id (png_data_url payload)) segs);
      [apply placeholder_nonempty | exact Hcut].
  - intros id text.
    destruct (cut_exists (placeholder id) (placeholder_nonempty id) text)
      as (segs & _ & Ht & Hcut).
    by exists segs.
Qed.

Lemma placeholder_substitution_witness :
  generate_markdown_from_response
    {| pages :=
         Some [ {| markdown :=
                     Some ("See ![fig1](fig1), ![fig1](other)"
                           +:+ " and ![fig2](fig2).");
                   images :=
                     [ {| img_id := Some "fig2"; image_base64 := Some "Qg==" |};
                       {| img_id := Some "fig1";
                          image_base64 := Some "QQ==" |} ] |} ] |}
    true
  = "See ![fig1](data:image/png;base64,QQ==), ![fig1](other)"
    +:+ " and ![fig2](data:image/png;base64,Qg==).".
Proof.
  destruct (placeholder_substitution [] []
              [ {| img_id := Some "fig2"; image_base64 := Some "Qg==" |};
                {| img_id := Some "fig1"; image_base64 := Some "QQ==" |} ])
    as [Hall _].
  apply (Hall (ltac:(repeat constructor))
           [("See ", ("fig1", "QQ=="));
            (", ![fig1](other) and ", ("fig2", "Qg=="))] ".").
  - constructor; [split |].
    + exists [ {| img_id := Some "fig2"; image_base64 := Some "Qg==" |} ], [].
      by split.
    + intros id payload Hin.
      apply elem_of_cons in Hin as [[= -> ->] | Hin];
        [reflexivity |].
      apply list_elem_of_singleton in Hin as [= -> ->]. reflexivity.
    + constructor; [split | constructor].
      * exists [],
          [ {| img_id := Some "fig1"; image_base64 := Some "QQ==" |} ].
        split; [done |]. constructor; [by left | constructor].
      * intros id payload Hin.
        apply elem_of_cons in Hin as [[= -> ->] | Hin];
          [reflexivity |].
        apply list_elem_of_singleton in Hin as [= -> ->]. reflexivity.
  - intros id payload Hin.
    apply elem_of_cons in Hin as [[= -> ->] | Hin]; [reflexivity |].
    apply list_elem_of_singleton in Hin as [= -> ->]. reflexivity.
Defined.

(** With ids that hold placeholder syntax the substitutions, made one
    after the other, interfere: here the substitution for ["x"] takes a
    part of the reference to the second image, which then stays. *)
Example interfering_ids_example :
  generate_markdown_from_response
    {| pages :=
         Some [ {| markdown := Some "![q![x](x](q![x](x)";
                   images :=
                     [ {| img_id := Some "x"; image_base64 := Some "QQ==" |};
                       {| img_id := Some "q![x](x";
                          image_base64 := Some "Qg==" |} ] |} ] |}
    true
  = "![q![x](x](q![x](data:image/png;base64,QQ==)".
Proof. reflexivity. Qed.

(** ** The PDF pipeline *)

Section PipelineFacts.
Context {World : Type}.
Variable host : Host World.

(** The PDF pipeline always returns; it leaves the disk alone and only
    adds remote calls to the log. *)
Lemma process_pdf_file_frame (client : MistralAPIClient World)
    (file_path : Path) (include_images : bool) (m : machine World) :
  exists r l m' evs,
    process_pdf_file host client file_path include_images None m
    = (Normal r, l, m')
    /\ disk m' = disk m
    /\ calls m' = calls m ++ evs
    /\ written_paths evs = [].
Proof.
  unfold process_pdf_file, pdf_try_body, pdf_cleanup. run_script.
  repeat case_step.
  all: eexists _, _, _, _; split; [reflexivity |]; cbn;
    split; [reflexivity |]; split; [solve_calls | reflexivity].
Qed.

(** C1. Release exactly once: when staging yields a handle (a non-empty
    id, which is what line 153 tests), the calls of the run contain
    exactly one [files.delete], for that handle, and it is the last
    call of the run, on every path through the later steps; when
    staging yields no handle (it did not succeed, or the id is empty),
    no [files.delete] is issued. *)
Theorem release_exactly_once (client : MistralAPIClient World)
    (file_path : Path) (include_images : bool) (m : machine World) :
  exists evs,
    calls (machine_of
             (process_pdf_file host client file_path include_images None m))
    = calls m ++ evs
    /\ (forall h,
          staged_handle host client file_path (world m) = Some h ->
          str_truthy h = true ->
          released evs = [h] /\ last evs = Some (FilesDelete h))
    /\ (staged_handle host client file_path (world m) = None ->
        released evs = [])
    /\ (forall h,
          staged_handle host client file_path (world m) = Some h ->
          str_truthy h = false ->
          released evs = []).
Proof.
  unfold staged_handle, machine_of, process_pdf_file, pdf_try_body,
    pdf_cleanup.
  run_script.
  repeat case_step.
  all: eexists; split; [solve_calls |]; cbn;
    split; [intros h Hh Ht | split; [intros Hh | intros h Hh Ht]];
    simplify_eq; first [done | congruence].
Qed.

Lemma process_image_file_frame (client : MistralAPIClient World)
    (file_path : Path) (m : machine World) :
  exists r l m' evs,
    process_image_file host client file_path tt m = (Normal r, l, m')
    /\ disk m' = disk m
    /\ calls m' = calls m ++ evs
    /\ written_paths evs = [].
Proof.
  unfold process_image_file. run_script.
  repeat case_step.
  all: eexists _, _, _, _; split; [reflexivity |]; cbn;
    split; [reflexivity |]; split; [solve_calls | reflexivity].
Qed.

Variable embed : bool.

(** The pipeline call of the loop body always returns, keeps the
    counters and the disk, and only adds remote calls. *)
Lemma dispatch_frame (client : MistralAPIClient World) (file_path : Path)
    (cnt : counters) (m : machine World) :
  exists r m1 evs,
    dispatch host embed client file_path cnt m = (Normal r, cnt, m1)
    /\ disk m1 = disk m
    /\ calls m1 = calls m ++ evs
    /\ written_paths evs = [].
Proof.
  unfold dispatch, call.
  destruct (String.eqb _ ".pdf").
  - destruct (process_pdf_file_frame client file_path embed m)
      as (r & l & m' & evs & -> & Hd & Hc & Hw).
    by exists r, m', evs.
  - destruct (in_supported _).
    + destruct (process_image_file_frame client file_path m)
        as (r & l & m' & evs & -> & Hd & Hc & Hw).
      by exists r, m', evs.
    + exists None, m, []. by rewrite app_nil_r.
Qed.

(** What the loop body does once the pipeline has returned a response:
    one write of the synthesized text, counted as processed when it
    succeeds and as an error when it fails. *)
Lemma convert_file_response (client : MistralAPIClient World)
    (file_path output_md_path : Path) (cnt : counters)
    (m m1 : machine World) (response : OCRResponse) :
  dispatch host embed client file_path cnt m
  = (Normal (Some response), cnt, m1) ->
  let path := name output_md_path in
  let content := markdown_content_of embed file_path response in
  let log := calls m1 ++ [WriteText path content] in
  convert_file host embed client file_path output_md_path cnt m
  = match open_w host path content (world m1) with
    | (Written, w) =>
        (Normal tt, incr_processed cnt,
         {| world := w; disk := <[path := content]> (disk m1);
            calls := log |})
    | (OpenFailed e, w) =>
        (Normal tt, incr_errors cnt,
         {| world := w; disk := disk m1; calls := log |})
    | (WriteFailed e flushed, w) =>
        (Normal tt, incr_errors cnt,
         {| world := w; disk := <[path := flushed]> (disk m1);
            calls := log |})
    end.
Proof.
  intros Hd. unfold convert_file, handle_response.
  run_script. rewrite Hd. cbn.
  fold (markdown_content_of embed file_path response).
  destruct (open_w host _ _ (world m1)) as [[|e|e flushed] w];
    cbn; try destruct e; reflexivity.
Qed.

Lemma convert_file_none (client : MistralAPIClient World)
    (file_path output_md_path : Path) (cnt : counters)
    (m m1 : machine World) :
  dispatch host embed client file_path cnt m = (Normal None, cnt, m1) ->
  convert_file host embed client file_path output_md_path cnt m
  = (Normal tt, incr_errors cnt, m1).
Proof.
  intros Hd. unfold convert_file, handle_response.
  run_script. by rewrite Hd.
Qed.
End PipelineFacts.

(** ** The batch loop *)

Section BatchFacts.
Context {World : Type}.
Variable host : Host World.
Variable embed : bool.
Variable client : MistralAPIClient World.

Lemma for_each_cons {L X} (x : X) (xs : list X)
    (body : X -> M World L unit) (l : L) (m : machine World) :
  for_each (x :: xs) body l m
  = match body x l m with
    | (Normal _, l', m') => for_each xs body l' m'
    | (Raised e, l', m') => (Raised e, l', m')
    end.
Proof. reflexivity. Qed.

(** The loop body either skips, or converts the file. *)
Lemma main_loop_body_cases (file_path : Path) (cnt : counters)
    (m : machine World) :
  let out := with_suffix file_path ".md" in
  ((is_Some (disk m !! name out) \/ is_script_itself host file_path = true)
   /\ main_loop_body host embed client file_path cnt m
      = (Normal tt, incr_skipped cnt, m))
  \/ (disk m !! name out = None
      /\ is_script_itself host file_path = false
      /\ main_loop_body host embed client file_path cnt m
         = convert_file host embed client file_path out cnt m).
Proof.
  unfold main_loop_body. run_script.
  case_bool_decide as Hex.
  - left. by split; [left |].
  - destruct (is_script_itself host file_path) eqn:Hs.
    + left. by split; [right |].
    + right. split; [| done].
      destruct (disk m !! _) eqn:E; [| done]. destruct Hex. by eexists.
Qed.

(** One iteration: it returns, and the machine it leaves is described
    by one of four cases. *)
Lemma main_loop_body_outcomes (file_path : Path) (cnt : counters)
    (m : machine World) :
  let out := name (with_suffix file_path ".md") in
  exists cnt' m' evs,
    main_loop_body host embed client file_path cnt m = (Normal tt, cnt', m')
    /\ calls m' = calls m ++ evs
    /\ ((cnt' = incr_skipped cnt /\ m' = m /\ evs = []
         /\ (is_Some (disk m !! out)
             \/ is_script_itself host file_path = true))
        \/ (cnt' = incr_errors cnt /\ disk m' = disk m
            /\ written_paths evs = [] /\ disk m !! out = None)
        \/ (exists content,
              cnt' = incr_processed cnt
              /\ disk m' = <[out := content]> (disk m)
              /\ written_paths evs = [out] /\ disk m !! out = None)
        \/ (cnt' = incr_errors cnt
            /\ (disk m' = disk m
                \/ exists flushed, disk m' = <[out := flushed]> (disk m))
            /\ written_paths evs = [out] /\ disk m !! out = None)).
Proof.
  intros out.
  destruct (main_loop_body_cases file_path cnt m)
    as [[Hskip ->] | (Hnone & Hself & ->)].
  { exists (incr_skipped cnt), m, []. rewrite app_nil_r. tauto. }
  destruct (dispatch_frame host embed client file_path cnt m)
    as (r & m1 & evs & Hd & Hdisk & Hcalls & Hw).
  destruct r as [response |].
  - rewrite (convert_file_response host embed client _ _ _ _ _ _ Hd).
    cbv zeta. fold out.
    assert (forall e, written_paths (evs ++ [e]) = written_paths [e]) as Hwr.
    { intros e. unfold written_paths in *. by rewrite omap_app, Hw. }
    destruct (open_w host _ _ (world m1)) as [[|e|e flushed] w].
    + eexists _, _, (evs ++ [_]). split; [reflexivity |]. cbn.
      split; [by rewrite Hcalls, app_assoc |].
      right; right; left. eexists. rewrite Hdisk, Hwr. by cbn.
    + eexists _, _, (evs ++ [_]). split; [reflexivity |]. cbn.
      split; [by rewrite Hcalls, app_assoc |].
      right; right; right. rewrite Hwr. cbn. tauto.
    + eexists _, _, (evs ++ [_]). split; [reflexivity |]. cbn.
      split; [by rewrite Hcalls, app_assoc |].
      right; right; right. rewrite Hwr, Hdisk. cbn. eauto 6.
  - rewrite (convert_file_none host embed client _ _ _ _ _ Hd).
    exists (incr_errors cnt), m1, evs. split; [done |]. split; [done |].
    right; left. tauto.
Qed.

Lemma for_each_app (xs ys : list Path) (cnt : counters)
    (m : machine World) :
  let s1 := for_each xs (main_loop_body host embed client) cnt m in
  for_each (xs ++ ys) (main_loop_body host embed client) cnt m
  = for_each ys (main_loop_body host embed client)
      (locals_of s1) (machine_of s1).
Proof.
  revert cnt m. induction xs as [|x xs IH]; intros cnt m; [done |].
  cbn [app]. rewrite !for_each_cons.
  destruct (main_loop_body_outcomes x cnt m) as (c' & m' & evs & -> & _).
  apply IH.
Qed.

(** The loop returns, and every iteration moves one counter by one. *)
Lemma for_each_total (files : list Path) (cnt : counters)
    (m : machine World) :
  outcome_of (for_each files (main_loop_body host embed client) cnt m)
  = Normal tt
  /\ total (locals_of (for_each files (main_loop_body host embed client) cnt m))
     = total cnt + length files.
Proof.
  revert cnt m. induction files as [|f files IH]; intros cnt m.
  - split; [done |]. cbn. lia.
  - rewrite for_each_cons.
    destruct (main_loop_body_outcomes f cnt m)
      as (c' & m' & evs & -> & _ & Hc).
    destruct (IH c' m') as [Ho Ht]. split; [done |]. rewrite Ht.
    assert (total c' = S (total cnt)) as ->; [| cbn; lia].
    destruct Hc as [(-> & _) | [(-> & _) | [(? & -> & _) | (-> & _)]]];
      unfold total; cbn; lia.
Qed.

(** A file that exists is left as it is by the rest of the run. *)
Lemma for_each_keeps (files : list Path) (cnt : counters)
    (m : machine World) (p : string) :
  is_Some (disk m !! p) ->
  disk (machine_of
          (for_each files (main_loop_body host embed client) cnt m)) !! p
  = disk m !! p.
Proof.
  revert cnt m. induction files as [|f files IH]; intros cnt m Hp; [done |].
  rewrite for_each_cons.
  destruct (main_loop_body_outcomes f cnt m)
    as (c' & m' & evs & -> & _ & Hc).
  assert (disk m' !! p = disk m !! p) as Hsame.
  { destruct Hc as [(_ & -> & _) | [(_ & -> & _) |
      [(c & _ & -> & _ & Hn) | (_ & [-> | [fl ->]] & _ & Hn)]]];
      try done.
    all: rewrite lookup_insert_ne; [done |].
    all: intros <-; rewrite Hn in Hp; by destruct Hp. }
  rewrite IH; [done |]. by rewrite Hsame.
Qed.

(** C2. Idempotent skip: a candidate whose output path exists, or which
    is the script's own file, is counted as skipped and nothing else
    happens: the machine is as before, so the pipeline was not invoked
    and no call, remote or local, was issued; the loop goes on with the
    next candidate. *)
Theorem skipped_without_calls (file_path : Path) (cnt : counters)
    (m : machine World) :
  is_Some (disk m !! name (with_suffix file_path ".md"))
  \/ is_script_itself host file_path = true ->
  main_loop_body host embed client file_path cnt m
  = (Normal tt, incr_skipped cnt, m)
  /\ files_skipped (incr_skipped cnt) = S (files_skipped cnt)
  /\ remote_calls
       (calls (machine_of (main_loop_body host embed client file_path cnt m)))
     = remote_calls (calls m)
  /\ forall rest,
       for_each (file_path :: rest) (main_loop_body host embed client) cnt m
       = for_each rest (main_loop_body host embed client)
           (incr_skipped cnt) m.
Proof.
  intros Hskip.
  assert (main_loop_body host embed client file_path cnt m
          = (Normal tt, incr_skipped cnt, m)) as E.
  { destruct (main_loop_body_cases file_path cnt m)
      as [[_ E] | (Hn & Hs & _)]; [done |].
    destruct Hskip as [[v Hv] | Hself]; congruence. }
  split; [done |]. split; [done |]. split; [by rewrite E |].
  intros rest. by rewrite for_each_cons, E.
Qed.

(** C6. Counter partition: every iteration returns and increments
    exactly one of the three counters by one; after the loop,
    processed + skipped + errors has grown by the number of candidates,
    and equals it when the counters start at zero. *)
Theorem counters_partition :
  (forall (file_path : Path) (cnt : counters) (m : machine World),
     exists m',
       main_loop_body host embed client file_path cnt m
       = (Normal tt, incr_processed cnt, m')
       \/ main_loop_body host embed client file_path cnt m
          = (Normal tt, incr_skipped cnt, m')
       \/ main_loop_body host embed client file_path cnt m
          = (Normal tt, incr_errors cnt, m'))
  /\ (forall (files : list Path) (cnt : counters) (m : machine World),
        let final :=
          for_each files (main_loop_body host embed client) cnt m in
        outcome_of final = Normal tt
        /\ files_processed (locals_of final)
           + files_skipped (locals_of final)
           + errors_occurred (locals_of final)
           = files_processed cnt + files_skipped cnt + errors_occurred cnt
             + length files)
  /\ (forall (files : list Path) (m : machine World),
        let final :=
          for_each files (main_loop_body host embed client)
            zero_counters m in
        files_processed (locals_of final)
        + files_skipped (locals_of final)
        + errors_occurred (locals_of final)
        = length files).
Proof.
  split; [| split].
  - intros f cnt m.
    destruct (main_loop_body_outcomes f cnt m)
      as (c' & m' & evs & -> & _ & Hc).
    exists m'.
    destruct Hc as [(-> & _) | [(-> & _) | [(? & -> & _) | (-> & _)]]]; auto.
  - intros files cnt m final. apply for_each_total.
  - intros files m final.
    by destruct (for_each_total files zero_counters m).
Qed.

(** C9. No overwrite: take any candidate of a batch, with the candidates
    before and after it.  Its iteration issues at most one write, to its
    own output path, and only if that path did not exist when the
    iteration began; if the path existed then, whether from before the
    run or created by an earlier candidate, the iteration changes
    nothing.  Every file that exists when the iteration begins, and every
    file that existed before the run, still has the same content when
    the run ends. *)
Theorem never_overwrites (before : list Path) (file_path : Path)
    (after : list Path) (cnt : counters) (m : machine World) :
  let out := name (with_suffix file_path ".md") in
  let step := main_loop_body host embed client in
  let s1 := for_each before step cnt m in
  let s2 := step file_path (locals_of s1) (machine_of s1) in
  let s3 := for_each after step (locals_of s2) (machine_of s2) in
  for_each (before ++ file_path :: after) step cnt m = s3
  /\ (exists evs,
        calls (machine_of s2) = calls (machine_of s1) ++ evs
        /\ (written_paths evs = []
            \/ (written_paths evs = [out]
                /\ disk (machine_of s1) !! out = None)))
  /\ (is_Some (disk (machine_of s1) !! out) -> machine_of s2 = machine_of s1)
  /\ (forall p, is_Some (disk (machine_of s1) !! p) ->
        disk (machine_of s3) !! p = disk (machine_of s1) !! p)
  /\ (forall p, is_Some (disk m !! p) ->
        disk (machine_of s3) !! p = disk m !! p).
Proof.
  intros out step s1 s2 s3. subst step.
  assert (for_each (before ++ file_path :: after)
            (main_loop_body host embed client) cnt m = s3) as E.
  { rewrite for_each_app. fold s1. rewrite for_each_cons. fold s2.
    subst s3. destruct (main_loop_body_outcomes file_path (locals_of s1)
      (machine_of s1)) as (c' & m' & evs & Hb & _).
    subst s2. by rewrite Hb. }
  split; [done |].
  assert (forall p, is_Some (disk (machine_of s1) !! p) ->
            disk (machine_of s3) !! p = disk (machine_of s1) !! p) as Hkeep.
  { intros p Hp.
    pose proof (for_each_keeps (file_path :: after) (locals_of s1)
                  (machine_of s1) p Hp) as Hk.
    rewrite for_each_cons in Hk. fold s2 in Hk.
    destruct (main_loop_body_outcomes file_path (locals_of s1)
      (machine_of s1)) as (c' & m' & evs & Hb & _).
    subst s3. fold s2 in Hb. by rewrite Hb in *. }
  destruct (main_loop_body_outcomes file_path (locals_of s1) (machine_of s1))
    as (c' & m' & evs & Hb & Hcalls & Hc).
  fold s2 in Hb. fold out in Hc.
  split; [| split; [| split]].
  - exists evs. rewrite Hb. split; [done |].
    destruct Hc as [(_ & _ & -> & _) | [(_ & _ & -> & _) |
      [(? & _ & _ & -> & ?) | (_ & _ & -> & ?)]]]; auto.
  - intros [v Hv]. rewrite Hb.
    destruct Hc as [(_ & -> & _) | [(_ & _ & _ & Hn) |
      [(? & _ & _ & _ & Hn) | (_ & _ & _ & Hn)]]]; [done | | |];
      rewrite Hv in Hn; done.
  - exact Hkeep.
  - intros p Hp.
    pose proof (for_each_keeps before cnt m p Hp) as Hk. fold s1 in Hk.
    rewrite Hkeep; [done |]. by rewrite Hk.
Qed.

(** An iteration that is not skipped and whose pipeline returns a
    response writes the synthesized text once; when the write succeeds
    the file holds that text and the iteration counts as processed. *)
Lemma response_is_written (file_path : Path) (cnt : counters)
    (m m1 : machine World) (response : OCRResponse) :
  let out := name (with_suffix file_path ".md") in
  let content := markdown_content_of embed file_path response in
  let final := main_loop_body host embed client file_path cnt m in
  disk m !! out = None ->
  is_script_itself host file_path = false ->
  dispatch host embed client file_path cnt m
  = (Normal (Some response), cnt, m1) ->
  outcome_of final = Normal tt
  /\ calls (machine_of final) = calls m1 ++ [WriteText out content]
  /\ ((open_w host out content (world m1)).1 = Written ->
      locals_of final = incr_processed cnt
      /\ disk (machine_of final) !! out = Some content)
  /\ ((open_w host out content (world m1)).1 <> Written ->
      locals_of final = incr_errors cnt).
Proof.
  intros out content final Hn Hs Hd. subst final.
  destruct (main_loop_body_cases file_path cnt m)
    as [[[[v Hv] | Hself] _] | (_ & _ & ->)];
    [unfold out in *; congruence.. |].
  rewrite (convert_file_response host embed client _ _ _ _ _ _ Hd).
  cbv zeta. fold out content.
  destruct (open_w host out content (world m1)) as [[|e|e flushed] w]; cbn.
  all: split; [done |]; split; [done |]; split; [| done].
  all: intros Hw; try done.
  split; [done |]. apply lookup_insert_eq.
Qed.

(** C7. Zero pages: a result with zero pages synthesizes to the empty
    string; the loop body then writes the empty string to the output path,
    and when that write succeeds the file is empty, the processed counter
    has grown by one and the error counter has not. *)
Theorem zero_pages_processed (file_path : Path) (cnt : counters)
    (m m1 : machine World) (response : OCRResponse) :
  let out := name (with_suffix file_path ".md") in
  let final := main_loop_body host embed client file_path cnt m in
  pages response = Some [] ->
  disk m !! out = None ->
  is_script_itself host file_path = false ->
  dispatch host embed client file_path cnt m
  = (Normal (Some response), cnt, m1) ->
  (forall include_images,
     generate_markdown_from_response response include_images = "")
  /\ outcome_of final = Normal tt
  /\ calls (machine_of final) = calls m1 ++ [WriteText out ""]
  /\ ((open_w host out "" (world m1)).1 = Written ->
      disk (machine_of final) !! out = Some ""
      /\ files_processed (locals_of final) = S (files_processed cnt)
      /\ files_skipped (locals_of final) = files_skipped cnt
      /\ errors_occurred (locals_of final) = errors_occurred cnt).
Proof.
  intros out final Hp Hn Hs Hd.
  assert (forall incl, generate_markdown_from_response response incl = "")
    as Hgen.
  { intros incl. unfold generate_markdown_from_response. by rewrite Hp. }
  split; [done |].
  destruct (response_is_written file_path cnt m m1 response Hn Hs Hd)
    as (Ho & Hc & Hw & _).
  unfold markdown_content_of in Hc, Hw. rewrite Hgen in Hc, Hw.
  split; [done |]. split; [done |].
  intros Hok. destruct (Hw Hok) as [Hl Hdisk]. subst final.
  by rewrite Hl.
Qed.

End BatchFacts.

(** ** Failure of the release *)

Section ReleaseFacts.
Context {World : Type}.
Variable host : Host World.
Variable embed : bool.
Variable client : MistralAPIClient World.

(** Whatever [files.delete] does, the PDF pipeline returns what its
    [try] block produced. *)
Lemma process_pdf_file_result (file_path : Path) (include_images : bool)
    (m m1 : machine World) (l1 : option string)
    (result : option OCRResponse)
    (delete : string -> World -> outcome unit * World) :
  pdf_try_body host client file_path include_images None m
  = (Normal result, l1, m1) ->
  outcome_of (process_pdf_file host (with_delete client delete)
                file_path include_images None m)
  = Normal result.
Proof.
  intros Hb. unfold process_pdf_file, try_finally, try_except, outcome_of.
  change (pdf_try_body host (with_delete client delete))
    with (pdf_try_body host client).
  rewrite Hb. unfold pdf_cleanup. run_script.
  repeat case_step; reflexivity.
Qed.

(** C8. Release failure is not an error.  The value the PDF pipeline
    returns does not depend on what [files.delete] does: it is the value
    returned with the client's own [files.delete], and it is the OCR
    result whenever the [try] block obtained one.  In the batch loop, for
    a PDF whose [try] block obtained a result, the counter that moves is
    decided by the write of the output file alone: processed when the
    write succeeds, whatever [files.delete] did. *)
Theorem release_failure_is_not_an_error (file_path : Path)
    (delete : string -> World -> outcome unit * World) :
  (forall (include_images : bool) (m : machine World),
     outcome_of (process_pdf_file host (with_delete client delete)
                   file_path include_images None m)
     = outcome_of (process_pdf_file host client
                     file_path include_images None m))
  /\ (forall (include_images : bool) (m m1 : machine World) l1 response,
        pdf_try_body host client file_path include_images None m
        = (Normal (Some response), l1, m1) ->
        outcome_of (process_pdf_file host (with_delete client delete)
                      file_path include_images None m)
        = Normal (Some response))
  /\ (forall (cnt : counters) (m m1 : machine World) l1 response,
        let out := name (with_suffix file_path ".md") in
        let released_m :=
          machine_of (process_pdf_file host (with_delete client delete)
                        file_path embed None m) in
        let final :=
          main_loop_body host embed (with_delete client delete)
            file_path cnt m in
        str_lower (suffix file_path) = ".pdf" ->
        disk m !! out = None ->
        is_script_itself host file_path = false ->
        pdf_try_body host client file_path embed None m
        = (Normal (Some response), l1, m1) ->
        outcome_of final = Normal tt
        /\ locals_of final
           = match (open_w host out
                      (markdown_content_of embed file_path response)
                      (world released_m)).1 with
             | Written => incr_processed cnt
             | _ => incr_errors cnt
             end).
Proof.
  split; [| split].
  - intros incl m.
    destruct (pdf_try_body host client file_path incl None m)
      as [[[r | e] l1] m1] eqn:Hb.
    + rewrite (process_pdf_file_result _ _ _ _ _ _ delete Hb).
      pose proof (process_pdf_file_result _ _ _ _ _ _
                    (files_delete client) Hb) as H.
      by destruct client.
    + unfold process_pdf_file, try_finally, try_except, outcome_of.
      change (pdf_try_body host (with_delete client delete))
        with (pdf_try_body host client).
      rewrite Hb. unfold pdf_cleanup. run_script.
      repeat case_step; reflexivity.
  - intros incl m m1 l1 response Hb.
    by apply (process_pdf_file_result _ _ _ _ _ _ delete Hb).
  - intros cnt m m1 l1 response out released_m final Hpdf Hn Hs Hb.
    pose proof (process_pdf_file_result _ _ _ _ _ _ delete Hb) as Hr.
    destruct (process_pdf_file host (with_delete client delete)
                file_path embed None m) as [[o l'] m'] eqn:Hp.
    unfold outcome_of in Hr. cbn in Hr. subst o.
    assert (dispatch host embed (with_delete client delete) file_path cnt m
            = (Normal (Some response), cnt, m')) as Hd.
    { unfold dispatch, call. rewrite Hpdf. cbn. by rewrite Hp. }
    subst released_m final. unfold machine_of. cbn [snd].
    destruct (main_loop_body_cases host embed (with_delete client delete)
                file_path cnt m)
      as [[[[v Hv] | Hself] _] | (_ & _ & ->)];
      [unfold out in *; congruence.. |].
    rewrite (convert_file_response host embed _ _ _ _ _ _ _ Hd).
    cbv zeta. fold out.
    by destruct (open_w host out _ (world m')) as [[|e|e flushed] w].
Qed.
End ReleaseFacts.

(** ** Pages without text *)

Lemma length_concat (sep : string) (l : list string) :
  String.length (String.concat sep l)
  = sum_list (String.length <$> l) + String.length sep * (length l - 1).
Proof.
  induction l as [|x l IH]; [cbn; lia |].
  destruct l as [|y l].
  - cbn. lia.
  - change (String.concat sep (x :: y :: l))
      with (x +:+ sep +:+ String.concat sep (y :: l)).
    rewrite !length_append, IH.
    change (String.length <$> x :: y :: l)
      with (String.length x :: (String.length <$> y :: l)).
    cbn [sum_list sum_list_with length].
    replace (S (S (length l)) - 1) with (S (S (length l) - 1)) by lia.
    unfold id. rewrite Nat.mul_succ_r. lia.
Qed.

Lemma page_step_retained (incl : bool) (ps : list OCRPageObject) :
  length (foldl (page_step incl) [] ps)
  = length (filter (fun p => has_markdown p = true) ps).
Proof.
  induction ps as [|p ps IH]; [done |].
  rewrite foldl_page_step_cons, length_app, IH, filter_cons.
  unfold page_step, has_markdown. destruct (markdown p); cbn.
  - by rewrite decide_True.
  - by rewrite decide_False.
Qed.

Section OmissionFacts.
Context {World : Type}.
Variable host : Host World.
Variable embed : bool.
Variable client : MistralAPIClient World.

(** C10. Pages without text: a page that lacks the [markdown] attribute
    is left out of the synthesized text, which is the text synthesized
    from the response without that page; the strings joined are as many
    as the pages that have a text, and the text is as long as these
    strings plus one separator (7 characters) for each of them but one.
    The response is still written, and counts as processed when the
    write succeeds. *)
Theorem missing_markdown_omitted :
  (forall (include_images : bool) (before after : list OCRPageObject)
          (page : OCRPageObject),
     markdown page = None ->
     generate_markdown_from_response
       {| pages := Some (before ++ page :: after) |} include_images
     = generate_markdown_from_response
         {| pages := Some (before ++ after) |} include_images)
  /\ (forall (include_images : bool) (ps : list OCRPageObject),
        let parts := foldl (page_step include_images) [] ps in
        let retained := filter (fun p => has_markdown p = true) ps in
        generate_markdown_from_response {| pages := Some ps |} include_images
        = String.concat PAGE_SEPARATOR parts
        /\ length parts = length retained
        /\ String.length
             (generate_markdown_from_response
                {| pages := Some ps |} include_images)
           = sum_list (String.length <$> parts) + 7 * (length retained - 1))
  /\ (forall (file_path : Path) (cnt : counters) (m m1 : machine World)
             (response : OCRResponse),
        let out := name (with_suffix file_path ".md") in
        let content := markdown_content_of embed file_path response in
        let final := main_loop_body host embed client file_path cnt m in
        disk m !! out = None ->
        is_script_itself host file_path = false ->
        dispatch host embed client file_path cnt m
        = (Normal (Some response), cnt, m1) ->
        (open_w host out content (world m1)).1 = Written ->
        locals_of final = incr_processed cnt
        /\ errors_occurred (locals_of final) = errors_occurred cnt
        /\ disk (machine_of final) !! out = Some content).
Proof.
  split; [| split].
  - intros incl before after page Hp.
    rewrite !generate_parts, !foldl_page_step_app, foldl_page_step_cons.
    unfold page_step at 2. by rewrite Hp.
  - intros incl ps parts retained. subst parts retained.
    rewrite generate_parts. split; [done |].
    split; [apply page_step_retained |].
    by rewrite length_concat, page_step_retained.
  - intros f cnt m m1 response out content final Hn Hs Hd Hw.
    destruct (response_is_written host embed client f cnt m m1 response
                Hn Hs Hd) as (_ & _ & Hok & _).
    destruct (Hok Hw) as [Hl Hdisk]. subst final.
    split; [done |]. split; [by rewrite Hl | done].
Qed.
End OmissionFacts.

(** ** The exit status *)

Section ExitFacts.
Context {World : Type}.
Variable host : Host World.
Variable embed : bool.

(** C5. Exit status: 1 when the credential is missing (absent or empty),
    when the client cannot be constructed, or when the directory cannot
    be listed; otherwise 0 when no candidate is found, 0 when the loop
    ends with no error counted, and 1 when it ends with an error
    counted. *)
Theorem exit_status_spec (m : machine World) :
  (opt_truthy (getenv host "MISTRAL_API_KEY") = false ->
   exit_status host embed m = 1)
  /\ (forall key,
        getenv host "MISTRAL_API_KEY" = Some key -> str_truthy key = true ->
        (forall e w,
           new_client host key (world m) = (Raised e, w) ->
           exit_status host embed m = 1)
        /\ (forall client w,
              new_client host key (world m) = (Normal client, w) ->
              (forall e w',
                 iterdir host w = (Raised e, w') ->
                 exit_status host embed m = 1)
              /\ (forall all_items w',
                    iterdir host w = (Normal all_items, w') ->
                    let final :=
                      for_each (files_to_process all_items)
                        (main_loop_body host embed client) zero_counters
                        {| world := w'; disk := disk m; calls := calls m |} in
                    (files_to_process all_items = [] ->
                     exit_status host embed m = 0)
                    /\ (errors_occurred (locals_of final) = 0 ->
                        exit_status host embed m = 0)
                    /\ (0 < errors_occurred (locals_of final) ->
                        exit_status host embed m = 1)))).
Proof.
  split.
  - unfold exit_status, main.
    destruct (getenv host "MISTRAL_API_KEY") as [[|c k] |]; done.
  - intros key Hkey Hk. destruct key as [|c k]; [done |].
    split; [intros e w Hc | intros client w Hc;
      split; [intros e w' Hi | intros all_items w' Hi final]].
    + unfold exit_status, main. rewrite Hkey. run_script. by rewrite Hc.
    + unfold exit_status, main. rewrite Hkey. run_script. rewrite Hc. cbn.
      rewrite Hi. by destruct e.
    + assert (exit_status host embed m
              = match files_to_process all_items with
                | [] => 0
                | _ => if (0 <? errors_occurred (locals_of final))%nat
                       then 1 else 0
                end) as ->.
      { unfold exit_status, main. rewrite Hkey. run_script. rewrite Hc.
        cbn -[for_each]. rewrite Hi. cbn -[for_each]. subst final.
        destruct (files_to_process all_items) as [|f files]; [done |].
        pose proof (for_each_total host embed client (f :: files)
                      zero_counters
                      {| world := w'; disk := disk m; calls := calls m |})
          as [Ho _].
        destruct (for_each (f :: files) _ _ _) as [[o c'] m'].
        unfold outcome_of in Ho. cbn in Ho. by subst o. }
      destruct (files_to_process all_items) as [|f files] eqn:Hf.
      { split; [done |]. split; [done |]. subst final. cbn. lia. }
      split; [done |]. split.
      * by intros ->.
      * intros Hpos. by destruct (errors_occurred (locals_of final)); [lia |].
Qed.
End ExitFacts.

(** ** The theorems on the sample scenario *)

Lemma release_exactly_once_witness :
  exists evs,
    calls (machine_of
             (process_pdf_file sample_host sample_client sample_pdf false
                None sample_machine))
    = calls sample_machine ++ evs
    /\ released evs = ["file-1"]
    /\ last evs = Some (FilesDelete "file-1").
Proof.
  destruct (release_exactly_once sample_host sample_client sample_pdf false
              sample_machine) as (evs & Hcalls & Hstaged & _ & _).
  exists evs. split; [exact Hcalls |]. apply Hstaged; reflexivity.
Defined.

Lemma skipped_without_calls_witness :
  main_loop_body sample_host false sample_client sample_pdf zero_counters
    {| world := tt; disk := {["a.md" := "old"]}; calls := [] |}
  = (Normal tt, incr_skipped zero_counters,
     {| world := tt; disk := {["a.md" := "old"]}; calls := [] |}).
Proof.
  apply skipped_without_calls. left. exists "old". vm_compute. reflexivity.
Defined.

Lemma exit_status_spec_witness :
  exit_status sample_host false sample_machine = 0.
Proof.
  destruct (exit_status_spec sample_host false sample_machine) as [_ Hkey].
  destruct (Hkey "key" eq_refl eq_refl) as [_ Hclient].
  destruct (Hclient sample_client tt eq_refl) as [_ Hlist].
  destruct (Hlist sample_directory tt eq_refl) as (_ & Hnone & _).
  apply Hnone. vm_compute. reflexivity.
Defined.

Lemma zero_pages_processed_witness :
  let final :=
    main_loop_body sample_host false sample_client sample_pdf zero_counters
      sample_machine in
  disk (machine_of final) !! "a.md" = Some ""
  /\ files_processed (locals_of final) = 1
  /\ files_skipped (locals_of final) = 0
  /\ errors_occurred (locals_of final) = 0.
Proof.
  destruct (zero_pages_processed sample_host false sample_client sample_pdf
              zero_counters sample_machine sample_released sample_response
              eq_refl eq_refl eq_refl eq_refl)
    as (_ & _ & _ & Hwritten).
  apply Hwritten. reflexivity.
Defined.

Lemma release_failure_is_not_an_error_witness :
  let failing := fun (_ : string) (w : unit) => (Raised IOError, w) in
  locals_of
    (main_loop_body sample_host false (with_delete sample_client failing)
       sample_pdf zero_counters sample_machine)
  = incr_processed zero_counters.
Proof.
  intros failing.
  destruct (release_failure_is_not_an_error sample_host false sample_client
              sample_pdf failing) as (_ & _ & Hbatch).
  destruct (Hbatch zero_counters sample_machine sample_processed
              (Some "file-1") sample_response
              eq_refl eq_refl eq_refl eq_refl)
    as [_ Hcount].
  exact Hcount.
Defined.

Lemma never_overwrites_witness :
  let s1 :=
    for_each [sample_pdf] (main_loop_body sample_host false sample_client)
      zero_counters sample_machine in
  machine_of
    (main_loop_body sample_host false sample_client sample_png
       (locals_of s1) (machine_of s1))
  = machine_of s1.
Proof.
  intros s1.
  destruct (never_overwrites sample_host false sample_client
              [sample_pdf] sample_png [] zero_counters sample_machine)
    as (_ & _ & Hexists & _).
  apply Hexists. exists "". vm_compute. reflexivity.
Defined.

Lemma missing_markdown_omitted_witness :
  generate_markdown_from_response
    {| pages := Some [ {| markdown := Some "one"; images := [] |};
                       {| markdown := None; images := [] |};
                       {| markdown := Some "two"; images := [] |} ] |}
    false
  = generate_markdown_from_response
      {| pages := Some [ {| markdown := Some "one"; images := [] |};
                         {| markdown := Some "two"; images := [] |} ] |}
      false.
Proof.
  destruct (missing_markdown_omitted sample_host false sample_client)
    as (Homit & _).
  apply (Homit false [ {| markdown := Some "one"; images := [] |} ]
           [ {| markdown := Some "two"; images := [] |} ]
           {| markdown := None; images := [] |}).
  reflexivity.
Defined.

(** ** The model on concrete values *)

Example str_replace_examples :
  str_replace "a-b-c" "-" "+" = "a+b+c"
  /\ str_replace "aaa" "aa" "b" = "ba"
  /\ str_replace "abc" "" "-" = "-a-b-c-"
  /\ str_replace "abc" "x" "y" = "abc"
  /\ str_replace "![a](a)![a](b)" (placeholder "a") (replacement "a" "U")
     = "![a](U)![a](b)".
Proof. repeat split; reflexivity. Qed.

Example str_find_examples :
  str_find "hello" "l" = Some 2
  /\ str_find "hello" "z" = None
  /\ str_find "hello" "" = Some 0.
Proof. repeat split; reflexivity. Qed.

Example str_lower_example : str_lower ".PdF" = ".pdf".
Proof. reflexivity. Qed.

Example dict_set_example :
  dict_set (dict_set (dict_set [] "a" "1") "b" "2") "a" "3"
  = [("a", "3"); ("b", "2")].
Proof. reflexivity. Qed.

(** Two images on a page are substituted one after the other. *)
Example two_images_example :
  generate_markdown_from_response
    {| pages := Some [ {| markdown := Some "![x](x) and ![y](y)";
                          images := [ {| img_id := Some "x";
                                         image_base64 := Some "AA" |};
                                      {| img_id := None;
                                         image_base64 := Some "BB" |};
                                      {| img_id := Some "y";
                                         image_base64 := Some "CC" |} ] |};
                       {| markdown := Some "second"; images := [] |} ] |}
    true
  = "![x](data:image/png;base64,AA) and ![y](data:image/png;base64,CC)"
    +:+ PAGE_SEPARATOR +:+ "second".
Proof. reflexivity. Qed.

Example files_to_process_example :
  files_to_process sample_directory = [sample_pdf; sample_png].
Proof. reflexivity. Qed.

(** The sample run: the PDF is staged, processed, released (the release
    fails) and written; the image is skipped because [a.md] exists by
    then; the exit status is 0. *)
Example sample_run :
  let final := main sample_host false zero_counters sample_machine in
  outcome_of final = Normal 0
  /\ locals_of final
     = {| files_processed := 1; files_skipped := 1; errors_occurred := 0 |}
  /\ calls (machine_of final)
     = [FilesUpload method_upload "a.pdf" "ocr";
        FilesGetSignedUrl "file-1";
        OcrProcess "mistral-ocr-latest" (document_url "https://signed")
          (Some false);
        FilesDelete "file-1";
        WriteText "a.md" ""]
  /\ disk (machine_of final) !! "a.md" = Some "".
Proof. vm_compute. repeat split; reflexivity. Qed.

(** Without the credential the script exits with 1 before any call. *)
Example missing_credential_run :
  main sample_host_without_key false zero_counters sample_machine
  = (Normal 1, zero_counters, sample_machine).
Proof. reflexivity. Qed.

(* ===================================================================== *)
(** * Part 7. Further properties of the code                             *)
(* ===================================================================== *)

(** ** The two pipelines *)

Section PipelineProperties.
Context {World : Type}.
Variable host : Host World.
Variable client : MistralAPIClient World.
Variable file_path : Path.

(** X1. No exception escapes [process_pdf_file] or [process_image_file]:
    whatever the file system and the service do, both return a value, and
    neither changes a file. *)
Theorem pipelines_always_return (include_images : bool)
    (m : machine World) :
  let pdf := process_pdf_file host client file_path include_images None m in
  let image := process_image_file host client file_path tt m in
  (exists result, outcome_of pdf = Normal result)
  /\ (exists result, outcome_of image = Normal result)
  /\ disk (machine_of pdf) = disk m
  /\ disk (machine_of image) = disk m.
Proof.
  intros pdf image. subst pdf image.
  destruct (process_pdf_file_frame host client file_path include_images m)
    as (r & l & m' & evs & -> & Hd & _).
  destruct (process_image_file_frame host client file_path m)
    as (r' & l' & m'' & evs' & -> & Hd' & _).
  unfold outcome_of, machine_of. cbn. repeat split; eauto.
Qed.

(** X2. When [process_pdf_file] returns a result, the file was opened,
    the upload returned an object, [files.get_signed_url] answered for
    the id of that object with a non-empty locator, and the run issued
    exactly these calls, in this order: the upload under the file's own
    name with purpose "ocr", the request of a signed URL for the id the
    upload returned, the OCR request for the locator that request
    returned, with the [include_images] flag, and the release of that
    same id (left out only for an empty id). *)
Theorem pdf_success_calls (include_images : bool) (m : machine World)
    (response : OCRResponse) :
  let run := process_pdf_file host client file_path include_images None m in
  outcome_of run = Normal (Some response) ->
  exists f w0 via upload uploaded w1 answer w2 locator w3,
    open_rb host file_path (world m) = (Normal f, w0)
    /\ upload_via client = Some (via, upload)
    /\ upload (name file_path) f w0 = (Normal uploaded, w1)
    /\ files_get_signed_url client (file_id uploaded) w1
       = (Normal answer, w2)
    /\ locator_of answer = Some locator
    /\ str_truthy locator = true
    /\ ocr_process client (document_url locator) (Some include_images) w2
       = (Normal response, w3)
    /\ calls (machine_of run)
       = calls m
         ++ [FilesUpload via (name file_path) "ocr";
             FilesGetSignedUrl (file_id uploaded);
             OcrProcess "mistral-ocr-latest" (document_url locator)
               (Some include_images)]
         ++ (if str_truthy (file_id uploaded)
             then [FilesDelete (file_id uploaded)] else []).
Proof.
  intros run. subst run.
  destruct (open_rb host file_path (world m)) as [[f | e] w0] eqn:Hopen.
  2: { unfold outcome_of, process_pdf_file, pdf_try_body, pdf_cleanup.
       run_script. rewrite Hopen. cbn. done. }
  destruct (upload_via client) as [[via upload] |] eqn:Hvia.
  2: { unfold outcome_of, process_pdf_file, pdf_try_body, pdf_cleanup.
       run_script. rewrite Hopen. cbn. rewrite Hvia. cbn. done. }
  destruct (upload (name file_path) f w0) as [[uploaded | e] w1] eqn:Hup.
  2: { unfold outcome_of, process_pdf_file, pdf_try_body, pdf_cleanup.
       run_script. rewrite Hopen. cbn. rewrite Hvia. cbn. rewrite Hup. cbn.
       done. }
  destruct (files_get_signed_url client (file_id uploaded) w1)
    as [[answer | e] w2] eqn:Hsign.
  2: { unfold outcome_of, process_pdf_file, pdf_try_body, pdf_cleanup.
       run_script. rewrite Hopen. cbn. rewrite Hvia. cbn. rewrite Hup. cbn.
       rewrite Hsign. cbn. repeat case_step; done. }
  destruct (locator_of answer) as [locator |] eqn:Hloc.
  2: { unfold outcome_of, process_pdf_file, pdf_try_body, pdf_cleanup.
       run_script. rewrite Hopen. cbn. rewrite Hvia. cbn. rewrite Hup. cbn.
       rewrite Hsign. cbn. fold (locator_of answer). rewrite Hloc. cbn.
       repeat case_step; done. }
  destruct (str_truthy locator) eqn:Htruthy.
  2: { unfold outcome_of, process_pdf_file, pdf_try_body, pdf_cleanup.
       run_script. rewrite Hopen. cbn. rewrite Hvia. cbn. rewrite Hup. cbn.
       rewrite Hsign. cbn. fold (locator_of answer). rewrite Hloc. cbn.
       rewrite Htruthy. cbn. repeat case_step; done. }
  destruct (ocr_process client (document_url locator)
              (Some include_images) w2) as [[r | e] w3] eqn:Hocr.
  2: { unfold outcome_of, process_pdf_file, pdf_try_body, pdf_cleanup.
       run_script. rewrite Hopen. cbn. rewrite Hvia. cbn. rewrite Hup. cbn.
       rewrite Hsign. cbn. fold (locator_of answer). rewrite Hloc. cbn.
       rewrite Htruthy. cbn. rewrite Hocr. cbn. repeat case_step; done. }
  intros Hr.
  exists f, w0, via, upload, uploaded, w1, answer, w2, locator, w3.
  revert Hr.
  unfold outcome_of, machine_of, process_pdf_file, pdf_try_body,
    pdf_cleanup.
  run_script. rewrite Hopen. cbn. rewrite Hvia. cbn. rewrite Hup. cbn.
  rewrite Hsign. cbn. fold (locator_of answer). rewrite Hloc. cbn.
  rewrite Htruthy. cbn. rewrite Hocr. cbn.
  destruct (str_truthy (file_id uploaded)) eqn:Hid; cbn;
    repeat case_step; intros [= ->]; cbn;
    repeat split; try reflexivity; by rewrite <- ?app_assoc.
Qed.

(** X3. The upload method: [files.upload] is used whenever the client
    has it, [files.create] only when it has no [files.upload]; with
    neither, or when the file cannot be opened, nothing is called and
    the result is [None].  The upload carries the file's own name and
    the purpose "ocr". *)
Theorem upload_method_choice (include_images : bool) (m : machine World) :
  let run := process_pdf_file host client file_path include_images None m in
  exists evs,
    calls (machine_of run) = calls m ++ evs
    /\ (forall e w,
          open_rb host file_path (world m) = (Raised e, w) ->
          evs = [] /\ outcome_of run = Normal None)
    /\ (files_upload client = None -> files_create client = None ->
        evs = [] /\ outcome_of run = Normal None)
    /\ (forall f w,
          open_rb host file_path (world m) = (Normal f, w) ->
          is_Some (files_upload client) ->
          uploads evs = [(method_upload, name file_path, "ocr")])
    /\ (forall f w,
          open_rb host file_path (world m) = (Normal f, w) ->
          files_upload client = None ->
          is_Some (files_create client) ->
          uploads evs = [(method_create, name file_path, "ocr")]).
Proof.
  unfold outcome_of, machine_of, process_pdf_file, pdf_try_body,
    pdf_cleanup, upload_via.
  run_script.
  repeat case_step.
  all: eexists; split; [solve_calls |]; cbn.
  all: repeat split; intros; simplify_eq; try done.
  all: try match goal with H : is_Some None |- _ => by destruct H end.
Qed.

(** X4. An unusable signed URL: when the answer to
    [files.get_signed_url] has an empty [signed_url] (whatever its [url]
    holds: [url] is looked at only when [signed_url] is missing), or has
    no [signed_url] and no usable [url], no OCR request is made, the
    result is [None], and the staged file is still released. *)
Theorem unusable_locator (include_images : bool) (m : machine World)
    f w0 via upload uploaded w1 answer w2 :
  open_rb host file_path (world m) = (Normal f, w0) ->
  upload_via client = Some (via, upload) ->
  upload (name file_path) f w0 = (Normal uploaded, w1) ->
  files_get_signed_url client (file_id uploaded) w1 = (Normal answer, w2) ->
  signed_url answer = Some ""
  \/ (signed_url answer = None /\ opt_truthy (url answer) = false) ->
  let run := process_pdf_file host client file_path include_images None m in
  outcome_of run = Normal None
  /\ exists evs,
       calls (machine_of run) = calls m ++ evs
       /\ ocr_requests evs = []
       /\ released evs
          = (if str_truthy (file_id uploaded) then [file_id uploaded]
             else []).
Proof.
  intros Hopen Hvia Hup Hsign Hbad run. subst run.
  unfold outcome_of, machine_of, process_pdf_file, pdf_try_body,
    pdf_cleanup.
  run_script. rewrite Hopen. cbn. rewrite Hvia. cbn. rewrite Hup. cbn.
  rewrite Hsign. cbn.
  destruct Hbad as [-> | [-> Hurl]].
  - cbn. repeat case_step.
    all: split; [done |]; eexists; split; [solve_calls | done].
  - destruct (url answer) as [u |]; cbn in *; [rewrite Hurl |]; cbn.
    all: repeat case_step.
    all: split; [done |]; eexists; split; [solve_calls | done].
Qed.

(** X5. The image pipeline makes no call for a file that cannot be read
    or is empty, and returns [None]; otherwise it makes exactly one
    call, an OCR request for the data URL
    [data:<mime>;base64,<encoded content>], without the
    [include_image_base64] argument, and returns the service's result,
    or [None] when the request fails.  It never stages, locates or
    releases anything. *)
Theorem image_pipeline_calls (m : machine World) :
  let run := process_image_file host client file_path tt m in
  exists evs,
    calls (machine_of run) = calls m ++ evs
    /\ uploads evs = [] /\ released evs = []
    /\ match open_rb host file_path (world m) with
       | (Normal (b :: bs), w) =>
           let doc :=
             image_url ("data:" +:+ final_mime_type host file_path
                        +:+ ";base64," +:+ b64encode host (b :: bs)) in
           evs = [OcrProcess "mistral-ocr-latest" doc None]
           /\ outcome_of run
              = match ocr_process client doc None w with
                | (Normal response, _) => Normal (Some response)
                | (Raised _, _) => Normal None
                end
       | _ => evs = [] /\ outcome_of run = Normal None
       end.
Proof.
  unfold outcome_of, machine_of, process_image_file.
  run_script.
  repeat case_step.
  all: eexists; split; [solve_calls |]; cbn; done.
Qed.
End PipelineProperties.

(** ** The MIME type of an image *)

(** X6. The MIME type sent for an image is never empty.  It is the
    guessed type when there is one; when the guess fails it is
    [image/png] for [.png], [image/webp] for [.webp] and [image/jpeg]
    for everything else, known or not.  Every supported extension other
    than [.pdf] has an entry in the fallback table. *)
Theorem final_mime_type_spec {World} (host : Host World) (file_path : Path) :
  let ext := str_lower (suffix file_path) in
  str_truthy (final_mime_type host file_path) = true
  /\ (forall guessed,
        guess_type host file_path = Some guessed ->
        str_truthy guessed = true ->
        final_mime_type host file_path = guessed)
  /\ (opt_truthy (guess_type host file_path) = false ->
      (ext = ".png" -> final_mime_type host file_path = "image/png")
      /\ (ext = ".webp" -> final_mime_type host file_path = "image/webp")
      /\ (ext <> ".png" -> ext <> ".webp" ->
          final_mime_type host file_path = "image/jpeg"))
  /\ (in_supported ext = true -> ext <> ".pdf" ->
      is_Some (mime_map_get ext)).
Proof.
  intros ext. unfold final_mime_type, mime_map_get. fold ext.
  split; [| split; [| split]].
  - destruct (guess_type host file_path) as [[|c g] |]; cbn; try done.
    all: repeat (destruct (String.eqb _ _); cbn; try done).
  - intros guessed -> Hg. cbn. by rewrite Hg.
  - intros ->.
    destruct (String.eqb_spec ext ".png") as [-> | Hpng]; [done |].
    destruct (String.eqb_spec ext ".jpg") as [-> | Hjpg]; [done |].
    destruct (String.eqb_spec ext ".jpeg") as [-> | Hjpeg]; [done |].
    destruct (String.eqb_spec ext ".webp") as [-> | Hwebp]; done.
  - intros Hin Hpdf. unfold in_supported in Hin.
    apply bool_decide_eq_true in Hin. unfold SUPPORTED_EXTENSIONS in Hin.
    rewrite !elem_of_cons in Hin.
    destruct Hin as [-> | [-> | [-> | [-> | [-> | Hin]]]]]; try done.
    by apply elem_of_nil in Hin.
Qed.

(** ** The candidates *)



(** ** More on the synthesis *)

(** An image the script can embed: it has an id and a payload. *)
Lemma image_data_step_skips (d : dict string) (img : OCRImageObject) :
  img_id img = None \/ image_base64 img = None ->
  image_data_step d img = d.
Proof.
  unfold image_data_step.
  intros [-> | ->]; [done |]. by destruct (img_id img).
Qed.

Lemma str_replace_absent (text old new : string) :
  old <> "" -> str_find text old = None -> str_replace text old new = text.
Proof.
  intros Hne Hf.
  apply (str_replace_segments old new [text] Hne). exact Hf.
Qed.

(** X8. Images that lack the id or the payload have no effect: a page
    synthesizes to the same string with or without them, and a page all
    of whose images lack one of the two keeps its text as it is. *)
Theorem images_without_id_or_payload_ignored
    (acc : list string) (text : string) (imgs : list OCRImageObject) :
  let usable img :=
    is_Some (img_id img) /\ is_Some (image_base64 img) in
  page_step true acc {| markdown := Some text; images := imgs |}
  = page_step true acc
      {| markdown := Some text; images := filter usable imgs |}
  /\ (Forall (fun img => img_id img = None \/ image_base64 img = None) imgs ->
      page_step true acc {| markdown := Some text; images := imgs |}
      = acc ++ [text]).
Proof.
  intros usable.
  assert (forall d, foldl image_data_step d imgs
                    = foldl image_data_step d (filter usable imgs)) as Hsame.
  { induction imgs as [|img imgs IH]; intros d; [done |].
    rewrite filter_cons. destruct (decide (usable img)) as [Hu | Hn].
    - cbn. apply IH.
    - cbn. rewrite image_data_step_skips; [apply IH |].
      unfold usable in Hn.
      destruct (img_id img), (image_base64 img); try tauto.
      destruct Hn. by split. }
  assert (page_step true acc {| markdown := Some text; images := imgs |}
          = page_step true acc
              {| markdown := Some text; images := filter usable imgs |})
    as Hpage.
  { unfold page_step. cbn [markdown images]. f_equal. f_equal.
    destruct imgs as [|img imgs]; [done |].
    rewrite (Hsame []).
    by destruct (filter usable (img :: imgs)). }
  split; [exact Hpage |].
  intros Hall. rewrite Hpage.
  assert (filter usable imgs = []) as ->; [| done].
  clear Hsame Hpage. induction Hall as [|img imgs Himg _ IH]; [done |].
  rewrite filter_cons, IH. destruct (decide (usable img)) as [[Hi Hp] |];
    [| done].
  destruct Himg as [Himg | Himg]; rewrite Himg in *;
    [by destruct Hi | by destruct Hp].
Qed.

(** X9. An image whose placeholder does not occur in the text leaves the
    text as it is: when no placeholder of the dictionary occurs, the
    text comes back unchanged. *)
Theorem absent_placeholders_unchanged
    (text : string) (images_dict : dict string) :
  Forall (fun entry => str_find text (placeholder entry.1) = None)
         images_dict ->
  replace_images_in_markdown text images_dict = text.
Proof.
  intros Hall. unfold replace_images_in_markdown.
  destruct images_dict as [|entry rest] eqn:E; [done |]. rewrite <- E in *.
  clear E. induction Hall as [|[i u] d Hi _ IH]; [done |].
  cbn [foldl]. rewrite str_replace_absent;
    [exact IH | apply placeholder_nonempty | exact Hi].
Qed.

(** X10. The dictionary of a page's images holds every id once, and the
    payload it holds for an id is that of the last image carrying this
    id together with a payload: an earlier image of the same id is
    overridden. *)
Theorem image_data_last_payload_wins
    (before after : list OCRImageObject) (id payload : string) :
  let image_data :=
    foldl image_data_step []
      (before ++ {| img_id := Some id; image_base64 := Some payload |}
              :: after) in
  Forall (fun img => img_id img <> Some id \/ image_base64 img = None)
         after ->
  NoDup image_data.*1
  /\ forall data_url,
       (id, data_url) ∈ image_data <-> data_url = png_data_url payload.
Proof.
  intros image_data Hafter. split; [apply image_data_NoDup |].
  by apply image_data_last.
Qed.

(** ** Composition of the synthesis *)

Lemma concat_app (sep : string) (l1 l2 : list string) :
  l1 <> [] -> l2 <> [] ->
  String.concat sep (l1 ++ l2)
  = String.concat sep l1 +:+ sep +:+ String.concat sep l2.
Proof.
  intros H1 H2. induction l1 as [|x l1 IH]; [done |].
  destruct l1 as [|x' l1].
  - destruct l2 as [|y l2]; [done |]. reflexivity.
  - change (String.concat sep ((x :: x' :: l1) ++ l2))
      with (x +:+ sep +:+ String.concat sep ((x' :: l1) ++ l2)).
    rewrite IH by done.
    change (String.concat sep (x :: x' :: l1))
      with (x +:+ sep +:+ String.concat sep (x' :: l1)).
    by rewrite !append_assoc.
Qed.

Lemma parts_nonempty (incl : bool) (ps : list OCRPageObject) :
  (exists p, p ∈ ps /\ is_Some (markdown p)) ->
  foldl (page_step incl) [] ps <> [].
Proof.
  intros (p & Hp & [t Ht]) Hnil.
  pose proof (page_step_retained incl ps) as Hlen. rewrite Hnil in Hlen.
  assert (p ∈ filter (fun p => has_markdown p = true) ps) as Hin.
  { apply list_elem_of_filter. split; [| done].
    unfold has_markdown. by rewrite Ht. }
  destruct (filter _ ps); [by apply elem_of_nil in Hin | done].
Qed.

Lemma parts_empty (incl : bool) (ps : list OCRPageObject) :
  Forall (fun p => markdown p = None) ps ->
  foldl (page_step incl) [] ps = [].
Proof.
  induction 1 as [|p ps Hp _ IH]; [done |].
  rewrite foldl_page_step_cons, IH. unfold page_step. by rewrite Hp.
Qed.

(** X11. Synthesis composes: the text of two page sequences put
    together is the text of the first, the separator, and the text of
    the second, when each has a page with a text; when one of them has
    no page with a text, it is the text of the other, with no separator
    added. *)
Theorem synthesis_composes (include_images : bool)
    (ps qs : list OCRPageObject) :
  let text pages :=
    generate_markdown_from_response {| pages := Some pages |}
      include_images in
  ((exists p, p ∈ ps /\ is_Some (markdown p)) ->
   (exists q, q ∈ qs /\ is_Some (markdown q)) ->
   text (ps ++ qs) = text ps +:+ PAGE_SEPARATOR +:+ text qs)
  /\ (Forall (fun p => markdown p = None) ps -> text (ps ++ qs) = text qs)
  /\ (Forall (fun q => markdown q = None) qs -> text (ps ++ qs) = text ps).
Proof.
  intros text. subst text. cbv beta.
  rewrite !generate_parts, foldl_page_step_app.
  split; [| split].
  - intros Hp Hq. apply concat_app; by apply parts_nonempty.
  - intros Hp. by rewrite (parts_empty _ ps Hp).
  - intros Hq. by rewrite (parts_empty _ qs Hq), app_nil_r.
Qed.

(** ** More on the batch loop *)

Section LoopProperties.
Context {World : Type}.
Variable host : Host World.
Variable embed : bool.
Variable client : MistralAPIClient World.

(** X12. What is written for an image, and for a PDF when embedding is
    off, is the join of the page texts: the images of the result play
    no part, whatever the configuration says for PDFs. *)
Theorem plain_output (file_path : Path) (cnt : counters)
    (m m1 : machine World) (ps : list OCRPageObject) :
  str_lower (suffix file_path) <> ".pdf" \/ embed = false ->
  disk m !! output_of file_path = None ->
  is_script_itself host file_path = false ->
  dispatch host embed client file_path cnt m
  = (Normal (Some {| pages := Some ps |}), cnt, m1) ->
  calls (machine_of (main_loop_body host embed client file_path cnt m))
  = calls m1
    ++ [WriteText (output_of file_path)
          (String.concat PAGE_SEPARATOR (omap markdown ps))].
Proof.
  intros Hplain Hn Hs Hd.
  destruct (response_is_written host embed client file_path cnt m m1 _
              Hn Hs Hd) as (_ & -> & _).
  unfold markdown_content_of, output_of.
  assert (String.eqb (str_lower (suffix file_path)) ".pdf" && embed = false)
    as ->.
  { destruct Hplain as [Hne | ->]; [| apply andb_false_r].
    by destruct (String.eqb_spec (str_lower (suffix file_path)) ".pdf"). }
  by rewrite generate_parts, foldl_page_step, page_step_plain.
Qed.
End LoopProperties.

Section RerunProperties.
Context {World : Type}.
Variable host : Host World.

(** A batch all of whose candidates are to be skipped changes nothing
    but the counter of skipped files. *)
Lemma all_skipped (embed : bool) (client : MistralAPIClient World)
    (files : list Path) (cnt : counters) (m : machine World) :
  (forall f, f ∈ files ->
     is_Some (disk m !! output_of f) \/ is_script_itself host f = true) ->
  for_each files (main_loop_body host embed client) cnt m
  = (Normal tt, skip_more (length files) cnt, m).
Proof.
  revert cnt. induction files as [|f files IH]; intros cnt Hall.
  - by destruct cnt.
  - rewrite for_each_cons.
    destruct (main_loop_body_cases host embed client f cnt m)
      as [[_ ->] | (Hn & Hs & _)].
    + rewrite IH by (intros f' Hf'; apply Hall; by right).
      unfold skip_more, incr_skipped. cbn. do 2 f_equal. f_equal. lia.
    + destruct (Hall f) as [[v Hv] | Hself]; [by left | |];
        unfold output_of in *; congruence.
Qed.

Lemma errors_grow (embed : bool) (client : MistralAPIClient World)
    (files : list Path) (cnt : counters) (m : machine World) :
  errors_occurred cnt
  <= errors_occurred
       (locals_of (for_each files (main_loop_body host embed client) cnt m)).
Proof.
  revert cnt m. induction files as [|f files IH]; intros cnt m; [done |].
  rewrite for_each_cons.
  destruct (main_loop_body_outcomes host embed client f cnt m)
    as (c' & m' & evs & -> & _ & Hc).
  etrans; [| apply IH].
  destruct Hc as [(-> & _) | [(-> & _) | [(? & -> & _) | (-> & _)]]];
    cbn; lia.
Qed.

(** After a batch in which no error was counted, every candidate has its
    output on the disk, or is the script itself. *)
Lemma clean_run_outputs (embed : bool) (client : MistralAPIClient World)
    (files : list Path) (cnt : counters) (m : machine World) :
  let final := for_each files (main_loop_body host embed client) cnt m in
  errors_occurred (locals_of final) = errors_occurred cnt ->
  forall f, f ∈ files ->
    is_Some (disk (machine_of final) !! output_of f)
    \/ is_script_itself host f = true.
Proof.
  revert cnt m. induction files as [|f files IH]; intros cnt m final Herr f' Hf'.
  { by apply elem_of_nil in Hf'. }
  subst final. rewrite for_each_cons in *.
  destruct (main_loop_body_outcomes host embed client f cnt m)
    as (c' & m' & evs & Hb & _ & Hc).
  rewrite Hb in *.
  pose proof (errors_grow embed client files c' m') as Hgrow.
  assert (errors_occurred cnt <= errors_occurred c') as Hstep.
  { destruct Hc as [(-> & _) | [(-> & _) | [(? & -> & _) | (-> & _)]]];
      cbn; lia. }
  apply elem_of_cons in Hf' as [-> | Hf'].
  - assert (is_Some (disk m' !! output_of f)
            \/ is_script_itself host f = true) as [Hex | Hself];
      [| | by right].
    + unfold output_of.
      destruct Hc as [(_ & -> & _ & Hskip) | [(-> & _) |
        [(c & _ & -> & _) | (-> & _)]]]; [done | cbn in *; lia | |
        cbn in *; lia].
      left. rewrite lookup_insert_eq. by eexists.
    + left. by rewrite for_each_keeps.
  - apply IH; [| done]. lia.
Qed.

(** X13. Running the batch again is free: after a run in which no error
    was counted, a second run over the same candidates skips every one
    of them and leaves the machine as it is, so it issues no call and
    writes nothing, whatever client and configuration it is given. *)
Theorem rerun_skips_everything (embed : bool)
    (client : MistralAPIClient World) (files : list Path)
    (cnt : counters) (m : machine World) :
  let first := for_each files (main_loop_body host embed client) cnt m in
  errors_occurred (locals_of first) = errors_occurred cnt ->
  forall (embed' : bool) (client' : MistralAPIClient World)
         (cnt' : counters),
    for_each files (main_loop_body host embed' client') cnt'
      (machine_of first)
    = (Normal tt,
       {| files_processed := files_processed cnt';
          files_skipped := length files + files_skipped cnt';
          errors_occurred := errors_occurred cnt' |},
       machine_of first).
Proof.
  intros first Herr embed' client' cnt'.
  apply (all_skipped embed' client' files cnt' (machine_of first)).
  by apply clean_run_outputs.
Qed.
End RerunProperties.

Section WriteProperties.
Context {World : Type}.
Variable host : Host World.
Variable embed : bool.
Variable client : MistralAPIClient World.

(** X14. The batch writes output files and nothing else: every write of
    a run goes to the output path of one of its candidates, a path that
    did not exist before the run; there are no more writes than
    candidates; and every other path of the disk is as it was. *)
Theorem writes_only_outputs (files : list Path) (cnt : counters)
    (m : machine World) :
  let final := for_each files (main_loop_body host embed client) cnt m in
  exists evs,
    calls (machine_of final) = calls m ++ evs
    /\ (forall p, p ∈ written_paths evs ->
          disk m !! p = None /\ exists f, f ∈ files /\ p = output_of f)
    /\ length (written_paths evs) <= length files
    /\ (forall p, (forall f, f ∈ files -> p <> output_of f) ->
          disk (machine_of final) !! p = disk m !! p).
Proof.
  revert cnt m. induction files as [|f files IH]; intros cnt m final.
  { exists []. subst final. cbn. split; [by rewrite app_nil_r |].
    split; [intros p Hp; by apply elem_of_nil in Hp |]. by split. }
  subst final. rewrite for_each_cons.
  destruct (main_loop_body_outcomes host embed client f cnt m)
    as (c' & m' & evs & -> & Hcalls & Hc).
  destruct (IH c' m') as (evs' & Hcalls' & Hw' & Hlen' & Hother').
  assert (forall p, disk m' !! p = None -> disk m !! p = None) as Hgrow.
  { intros p Hp.
    destruct Hc as [(_ & -> & _) | [(_ & <- & _) |
      [(c & _ & Hd & _) | (_ & [<- | [fl Hd]] & _)]]]; try done.
    all: rewrite Hd in Hp.
    all: destruct (decide (output_of f = p)) as [<- | Hne];
      [by rewrite lookup_insert_eq in Hp
      | by rewrite lookup_insert_ne in Hp]. }
  assert (written_paths evs = []
          \/ (written_paths evs = [output_of f]
              /\ disk m !! output_of f = None)) as Hw.
  { unfold output_of.
    destruct Hc as [(_ & _ & -> & _) | [(_ & _ & -> & _) |
      [(? & _ & _ & -> & ?) | (_ & _ & -> & ?)]]]; auto. }
  assert (forall p, p <> output_of f -> disk m' !! p = disk m !! p) as Hd.
  { intros p Hp. unfold output_of in Hp.
    destruct Hc as [(_ & -> & _) | [(_ & -> & _) |
      [(c & _ & -> & _) | (_ & [-> | [fl ->]] & _)]]]; try done.
    all: by rewrite lookup_insert_ne. }
  exists (evs ++ evs'). split; [by rewrite Hcalls', Hcalls, app_assoc |].
  unfold written_paths in *. rewrite omap_app.
  split; [| split].
  - intros p [Hp | Hp]%elem_of_app.
    + destruct Hw as [Hw | [Hw Hn]]; rewrite Hw in Hp.
      * by apply elem_of_nil in Hp.
      * apply list_elem_of_singleton in Hp as ->. split; [done |].
        exists f. split; [apply list_elem_of_here | done].
    + destruct (Hw' p Hp) as (Hn & f' & Hf' & ->). split; [by apply Hgrow |].
      exists f'. split; [by apply list_elem_of_further | done].
  - rewrite length_app. cbn.
    destruct Hw as [-> | [-> _]]; cbn; lia.
  - intros p Hp. rewrite Hother'.
    + apply Hd, Hp, list_elem_of_here.
    + intros f' Hf'. by apply Hp, list_elem_of_further.
Qed.

(** X15. A write that fails decides whether the file is tried again.
    When it fails after the file was created, what had been written
    stays on the disk, the file counts as an error, and every later
    iteration for it is a skip: it is never converted again.  When the
    file could not be opened, the disk is as before and no output
    exists. *)
Theorem failed_write_and_retry (file_path : Path) (cnt : counters)
    (m m1 : machine World) (response : OCRResponse) :
  let out := output_of file_path in
  let content := markdown_content_of embed file_path response in
  let first := main_loop_body host embed client file_path cnt m in
  disk m !! out = None ->
  is_script_itself host file_path = false ->
  dispatch host embed client file_path cnt m
  = (Normal (Some response), cnt, m1) ->
  (forall e flushed w,
     open_w host out content (world m1) = (WriteFailed e flushed, w) ->
     locals_of first = incr_errors cnt
     /\ disk (machine_of first) !! out = Some flushed
     /\ forall embed' client' cnt',
          main_loop_body host embed' client' file_path cnt'
            (machine_of first)
          = (Normal tt, incr_skipped cnt', machine_of first))
  /\ (forall e w,
        open_w host out content (world m1) = (OpenFailed e, w) ->
        locals_of first = incr_errors cnt
        /\ disk (machine_of first) = disk m).
Proof.
  intros out content first Hn Hs Hd.
  destruct (dispatch_frame host embed client file_path cnt m)
    as (r & m1' & evs & Hd' & Hdisk & _).
  rewrite Hd in Hd'. injection Hd' as <- <-.
  assert (first = convert_file host embed client file_path
                    (with_suffix file_path ".md") cnt m) as Hfirst.
  { subst first.
    destruct (main_loop_body_cases host embed client file_path cnt m)
      as [[[[v Hv] | Hself] _] | (_ & _ & ->)];
      [unfold out, output_of in *; congruence.. | done]. }
  rewrite Hfirst.
  rewrite (convert_file_response host embed client _ _ _ _ _ _ Hd).
  cbv zeta. fold (output_of file_path). fold out content.
  split.
  - intros e flushed w ->. cbn. split; [done |].
    split; [apply lookup_insert_eq |].
    intros embed' client' cnt'.
    match goal with
    | |- main_loop_body _ _ _ _ _ ?mm = _ =>
        destruct (main_loop_body_cases host embed' client' file_path cnt' mm)
          as [[_ Hskip] | (Hnone & _)]
    end; [done |].
    cbn in Hnone. fold (output_of file_path) in Hnone. fold out in Hnone.
    by rewrite lookup_insert_eq in Hnone.
  - by intros e w ->.
Qed.

(** X16. Two candidates of the same stem share their output path, and
    the one that comes later is skipped once the earlier one has been
    processed, whatever is converted in between. *)
Theorem same_stem_converted_once (first_file second_file : Path)
    (between : list Path) (cnt : counters) (m : machine World) :
  let step := main_loop_body host embed client in
  let s1 := step first_file cnt m in
  let s2 := for_each between step (locals_of s1) (machine_of s1) in
  stem first_file = stem second_file ->
  files_processed (locals_of s1) = S (files_processed cnt) ->
  output_of first_file = output_of second_file
  /\ step second_file (locals_of s2) (machine_of s2)
     = (Normal tt, incr_skipped (locals_of s2), machine_of s2).
Proof.
  intros step s1 s2 Hstem Hproc. subst step.
  assert (output_of first_file = output_of second_file) as Hout.
  { unfold output_of, name, with_suffix. cbn. by rewrite Hstem. }
  split; [done |].
  assert (is_Some (disk (machine_of s1) !! output_of first_file)) as Hex.
  { subst s1.
    destruct (main_loop_body_outcomes host embed client first_file cnt m)
      as (c' & m' & evs & Hb & _ & Hc).
    rewrite Hb in *. unfold locals_of, machine_of in *. cbn in *.
    unfold output_of.
    destruct Hc as [(-> & _) | [(-> & _) | [(c & _ & -> & _) | (-> & _)]]];
      cbn in Hproc; try lia.
    rewrite lookup_insert_eq. by eexists. }
  assert (is_Some (disk (machine_of s2) !! output_of second_file)) as Hex2.
  { subst s2. rewrite for_each_keeps; by rewrite <- Hout. }
  destruct (main_loop_body_cases host embed client second_file
              (locals_of s2) (machine_of s2))
    as [[_ Hskip] | (Hnone & _)]; [done |].
  unfold output_of in Hex2. rewrite Hnone in Hex2. by destruct Hex2.
Qed.
End WriteProperties.

(** ** The cost in remote calls *)

Section CostProperties.
Context {World : Type}.
Variable host : Host World.
Variable embed : bool.
Variable client : MistralAPIClient World.

Lemma process_pdf_file_budget (file_path : Path) (include_images : bool)
    (m : machine World) :
  exists evs,
    calls (machine_of
             (process_pdf_file host client file_path include_images None m))
    = calls m ++ evs
    /\ length evs <= 4.
Proof.
  unfold machine_of, process_pdf_file, pdf_try_body, pdf_cleanup.
  run_script.
  repeat case_step.
  all: eexists; split; [solve_calls | cbn; lia].
Qed.

Lemma process_image_file_budget (file_path : Path) (m : machine World) :
  exists evs,
    calls (machine_of (process_image_file host client file_path tt m))
    = calls m ++ evs
    /\ length evs <= 1.
Proof.
  unfold machine_of, process_image_file.
  run_script.
  repeat case_step.
  all: eexists; split; [solve_calls | cbn; lia].
Qed.

Lemma dispatch_budget (file_path : Path) (cnt : counters)
    (m : machine World) :
  exists r m1 evs,
    dispatch host embed client file_path cnt m = (Normal r, cnt, m1)
    /\ calls m1 = calls m ++ evs
    /\ length evs <= 4.
Proof.
  destruct (dispatch_frame host embed client file_path cnt m)
    as (r & m1 & evs0 & Hd & _).
  exists r, m1. revert Hd. unfold dispatch, call.
  destruct (String.eqb _ ".pdf").
  - destruct (process_pdf_file_budget file_path embed m)
      as (evs & Hc & Hlen).
    destruct (process_pdf_file _ _ _ _ _ _) as [[o l] m'].
    intros [= -> ->]. by exists evs.
  - destruct (in_supported _).
    + destruct (process_image_file_budget file_path m) as (evs & Hc & Hlen).
      destruct (process_image_file _ _ _ _ _) as [[o l] m'].
      intros [= -> ->]. exists evs. split; [done |]. split; [done | lia].
    + intros [= <- <-]. exists []. cbn. rewrite app_nil_r.
      split; [done |]. split; [done | lia].
Qed.

Lemma loop_body_budget (file_path : Path) (cnt : counters)
    (m : machine World) :
  exists cnt' m' evs,
    main_loop_body host embed client file_path cnt m = (Normal tt, cnt', m')
    /\ calls m' = calls m ++ evs
    /\ length (remote_calls evs) <= 4.
Proof.
  destruct (main_loop_body_cases host embed client file_path cnt m)
    as [[_ ->] | (_ & _ & ->)].
  { exists (incr_skipped cnt), m, []. rewrite app_nil_r.
    split; [done |]. split; [done |]. cbn. lia. }
  destruct (dispatch_budget file_path cnt m)
    as (r & m1 & evs & Hd & Hcalls & Hlen).
  pose proof (length_filter (fun e => is_remote e = true) evs) as Hf.
  destruct r as [response |].
  - rewrite (convert_file_response host embed client _ _ _ _ _ _ Hd).
    cbv zeta.
    destruct (open_w host _ _ (world m1)) as [[|e|e flushed] w].
    all: eexists _, _, (evs ++ [_]); split; [reflexivity |]; cbn.
    all: split; [by rewrite Hcalls, app_assoc |].
    all: unfold remote_calls; rewrite filter_app, length_app.
    all: match goal with
         | |- context [filter ?P [WriteText ?p ?c]] =>
             change (filter P [WriteText p c]) with (@nil event)
         end.
    all: cbn; lia.
  - rewrite (convert_file_none host embed client _ _ _ _ _ Hd).
    exists (incr_errors cnt), m1, evs. split; [done |]. split; [done |].
    unfold remote_calls. lia.
Qed.

(** X17. The cost of a batch: a PDF costs at most four remote calls, an
    image at most one, and a batch of [n] candidates at most [4 * n]. *)
Theorem remote_call_budget :
  (forall file_path include_images m,
     exists evs,
       calls (machine_of
                (process_pdf_file host client file_path include_images
                   None m))
       = calls m ++ evs
       /\ length evs <= 4)
  /\ (forall file_path m,
        exists evs,
          calls (machine_of (process_image_file host client file_path tt m))
          = calls m ++ evs
          /\ length evs <= 1)
  /\ (forall files cnt m,
        exists evs,
          calls (machine_of
                   (for_each files (main_loop_body host embed client) cnt m))
          = calls m ++ evs
          /\ length (remote_calls evs) <= 4 * length files).
Proof.
  split; [| split].
  - intros. apply process_pdf_file_budget.
  - intros. apply process_image_file_budget.
  - intros files. induction files as [|f files IH]; intros cnt m.
    + exists []. cbn. by rewrite app_nil_r.
    + rewrite for_each_cons.
      destruct (loop_body_budget f cnt m)
        as (c' & m' & evs & -> & Hcalls & Hlen).
      destruct (IH c' m') as (evs' & Hcalls' & Hlen').
      exists (evs ++ evs'). split; [by rewrite Hcalls', Hcalls, app_assoc |].
      unfold remote_calls in *. rewrite filter_app, length_app. cbn. lia.
Qed.
End CostProperties.

(** ** Before the loop *)

(** X18. Nothing is called or written before the loop.  Without a
    credential the machine is left as it is; when the client cannot be
    made, when the directory cannot be listed (an [OSError] ends the
    run with status 1, any other exception is not caught), or when no
    candidate is found (status 0), the log of calls and the disk are as
    they were. *)
Theorem nothing_before_the_loop {World} (host : Host World) (embed : bool)
    (cnt : counters) (m : machine World) :
  let run := main host embed cnt m in
  (opt_truthy (getenv host "MISTRAL_API_KEY") = false ->
   run = (Normal 1, cnt, m))
  /\ (forall key,
        getenv host "MISTRAL_API_KEY" = Some key -> str_truthy key = true ->
        (forall e w,
           new_client host key (world m) = (Raised e, w) ->
           run = (Normal 1, cnt,
                  {| world := w; disk := disk m; calls := calls m |}))
        /\ (forall client w,
              new_client host key (world m) = (Normal client, w) ->
              (forall e w',
                 iterdir host w = (Raised e, w') ->
                 run = (match e with
                        | IOError => Normal 1
                        | _ => Raised e
                        end, cnt,
                        {| world := w'; disk := disk m; calls := calls m |}))
              /\ (forall all_items w',
                    iterdir host w = (Normal all_items, w') ->
                    files_to_process all_items = [] ->
                    run = (Normal 0, cnt,
                           {| world := w'; disk := disk m;
                              calls := calls m |})))).
Proof.
  intros run. subst run. split.
  - unfold main.
    destruct (getenv host "MISTRAL_API_KEY") as [[|c k] |]; done.
  - intros key Hkey Hk. destruct key as [|c k]; [done |].
    split; [intros e w Hc | intros client w Hc;
      split; [intros e w' Hi | intros all_items w' Hi Hnone]].
    + unfold main. rewrite Hkey. run_script. by rewrite Hc.
    + unfold main. rewrite Hkey. run_script. rewrite Hc. cbn -[for_each].
      rewrite Hi. by destruct e.
    + unfold main. rewrite Hkey. run_script. rewrite Hc. cbn -[for_each].
      rewrite Hi. cbn -[for_each]. by rewrite Hnone.
Qed.

(** ** When the PDF pipeline succeeds *)

(** X19. [process_pdf_file] returns a result exactly when the file can
    be opened, the client has an upload method, the upload returns, the
    request of a signed URL returns an answer with a usable locator, and
    the OCR request for that locator returns this result; what the
    release does plays no part. *)
Theorem pdf_result_criterion {World} (host : Host World)
    (client : MistralAPIClient World) (file_path : Path)
    (include_images : bool) (m : machine World) (response : OCRResponse) :
  outcome_of (process_pdf_file host client file_path include_images None m)
  = Normal (Some response)
  <-> exists f w0 via upload uploaded w1 answer w2 locator w3,
        open_rb host file_path (world m) = (Normal f, w0)
        /\ upload_via client = Some (via, upload)
        /\ upload (name file_path) f w0 = (Normal uploaded, w1)
        /\ files_get_signed_url client (file_id uploaded) w1
           = (Normal answer, w2)
        /\ locator_of answer = Some locator
        /\ str_truthy locator = true
        /\ ocr_process client (document_url locator) (Some include_images) w2
           = (Normal response, w3).
Proof.
  split.
  - unfold outcome_of, process_pdf_file, pdf_try_body, pdf_cleanup.
    run_script.
    destruct (open_rb host file_path (world m)) as [[f | e] w0] eqn:Hopen;
      cbn; [| done].
    destruct (upload_via client) as [[via upload] |] eqn:Hvia; cbn; [| done].
    destruct (upload (name file_path) f w0) as [[uploaded | e] w1] eqn:Hup;
      cbn; [| done].
    destruct (files_get_signed_url client (file_id uploaded) w1)
      as [[answer | e] w2] eqn:Hsign; cbn.
    2: { repeat case_step; done. }
    fold (locator_of answer).
    destruct (locator_of answer) as [locator |] eqn:Hloc; cbn.
    2: { repeat case_step; done. }
    destruct (str_truthy locator) eqn:Htruthy; cbn.
    2: { repeat case_step; done. }
    destruct (ocr_process client (document_url locator)
                (Some include_images) w2) as [[r | e] w3] eqn:Hocr; cbn.
    2: { repeat case_step; done. }
    intros Hr.
    assert (r = response) as ->.
    { revert Hr. repeat case_step; by intros [= ->]. }
    by exists f, w0, via, upload, uploaded, w1, answer, w2, locator, w3.
  - intros (f & w0 & via & upload & uploaded & w1 & answer & w2 & locator
            & w3 & Hopen & Hvia & Hup & Hsign & Hloc & Htruthy & Hocr).
    unfold outcome_of, process_pdf_file, pdf_try_body, pdf_cleanup.
    run_script. rewrite Hopen. cbn. rewrite Hvia. cbn. rewrite Hup. cbn.
    rewrite Hsign. cbn. fold (locator_of answer). rewrite Hloc. cbn.
    rewrite Htruthy. cbn. rewrite Hocr. cbn.
    repeat case_step; reflexivity.
Qed.

(** ** The further properties on the sample scenario *)

Lemma pdf_success_calls_witness :
  calls (machine_of
           (process_pdf_file sample_host sample_client sample_pdf false
              None sample_machine))
  = [FilesUpload method_upload "a.pdf" "ocr";
     FilesGetSignedUrl "file-1";
     OcrProcess "mistral-ocr-latest" (document_url "https://signed")
       (Some false);
     FilesDelete "file-1"].
Proof.
  destruct (pdf_success_calls sample_host sample_client sample_pdf false
              sample_machine sample_response eq_refl)
    as (f & w0 & via & upload & uploaded & w1 & answer & w2 & locator & w3
        & Hopen & Hvia & Hup & Hsign & Hloc & _ & _ & Hcalls).
  injection Hopen as <- <-. injection Hvia as <- <-.
  injection Hup as <- <-. injection Hsign as <- <-.
  injection Hloc as <-. exact Hcalls.
Defined.

Lemma upload_method_choice_witness :
  exists evs,
    calls (machine_of
             (process_pdf_file sample_host sample_client sample_pdf false
                None sample_machine))
    = calls sample_machine ++ evs
    /\ uploads evs = [(method_upload, "a.pdf", "ocr")].
Proof.
  destruct (upload_method_choice sample_host sample_client sample_pdf false
              sample_machine) as (evs & Hcalls & _ & _ & Hupload & _).
  exists evs. split; [exact Hcalls |].
  apply (Hupload [Byte.x25] tt); [reflexivity | by eexists].
Defined.

Lemma unusable_locator_witness :
  let answer := {| signed_url := Some ""; url := Some "https://usable" |} in
  outcome_of
    (process_pdf_file sample_host (sample_client_signing answer) sample_pdf
       false None sample_machine)
  = Normal None.
Proof.
  intros answer.
  eapply proj1.
  eapply (unusable_locator sample_host (sample_client_signing answer)
            sample_pdf false sample_machine [Byte.x25] tt method_upload _
            {| file_id := "file-1" |} tt answer tt);
    [reflexivity | reflexivity | reflexivity | reflexivity
    | left; reflexivity].
Defined.

Lemma final_mime_type_spec_witness :
  final_mime_type sample_host sample_png = "image/png".
Proof.
  destruct (final_mime_type_spec sample_host sample_png)
    as (_ & _ & Hfallback & _).
  destruct (Hfallback eq_refl) as (Hpng & _).
  apply Hpng. reflexivity.
Defined.


Lemma images_without_id_or_payload_ignored_witness :
  page_step true []
    {| markdown := Some "![x](x)";
       images := [ {| img_id := None; image_base64 := Some "AA" |};
                   {| img_id := Some "x"; image_base64 := None |} ] |}
  = ["![x](x)"].
Proof.
  eapply (proj2 (images_without_id_or_payload_ignored [] "![x](x)" _)).
  constructor; [left; reflexivity |].
  constructor; [right; reflexivity |].
  constructor.
Defined.

Lemma absent_placeholders_unchanged_witness :
  replace_images_in_markdown "no image here"
    [("x", png_data_url "AA"); ("y", png_data_url "BB")]
  = "no image here".
Proof.
  apply absent_placeholders_unchanged. repeat constructor.
Defined.

Lemma image_data_last_payload_wins_witness :
  let data :=
    foldl image_data_step []
      [ {| img_id := Some "x"; image_base64 := Some "old" |};
        {| img_id := Some "x"; image_base64 := Some "new" |};
        {| img_id := Some "y"; image_base64 := Some "other" |} ] in
  ("x", png_data_url "new") ∈ data /\ ("x", png_data_url "old") ∉ data.
Proof.
  destruct (image_data_last_payload_wins
              [ {| img_id := Some "x"; image_base64 := Some "old" |} ]
              [ {| img_id := Some "y"; image_base64 := Some "other" |} ]
              "x" "new") as [_ Hlast].
  - constructor; [left; discriminate | constructor].
  - split.
    + apply (proj2 (Hlast (png_data_url "new"))). reflexivity.
    + intros Hold. apply (proj1 (Hlast (png_data_url "old"))) in Hold.
      discriminate Hold.
Defined.

Lemma synthesis_composes_witness :
  generate_markdown_from_response
    {| pages := Some ([ {| markdown := Some "a"; images := [] |} ]
                      ++ [ {| markdown := Some "b"; images := [] |} ]) |}
    false
  = "a" +:+ PAGE_SEPARATOR +:+ "b".
Proof.
  destruct (synthesis_composes false
              [ {| markdown := Some "a"; images := [] |} ]
              [ {| markdown := Some "b"; images := [] |} ]) as (Hboth & _).
  apply Hboth; eexists; (split; [apply list_elem_of_here | by eexists]).
Defined.

Lemma plain_output_witness :
  calls (machine_of
           (main_loop_body sample_host true sample_client sample_jpg
              zero_counters sample_machine))
  = [OcrProcess "mistral-ocr-latest"
       (image_url "data:image/jpeg;base64,JQ==") None;
     WriteText "b.md" ""].
Proof.
  apply (plain_output sample_host true sample_client sample_jpg
           zero_counters sample_machine
           (machine_of (dispatch sample_host true sample_client sample_jpg
                          zero_counters sample_machine)) []);
    [left; discriminate | reflexivity | reflexivity | reflexivity].
Defined.

Lemma rerun_skips_everything_witness :
  let first :=
    for_each [sample_pdf; sample_png]
      (main_loop_body sample_host false sample_client)
      zero_counters sample_machine in
  for_each [sample_pdf; sample_png]
    (main_loop_body sample_host true sample_client)
    zero_counters (machine_of first)
  = (Normal tt,
     {| files_processed := 0; files_skipped := 2; errors_occurred := 0 |},
     machine_of first).
Proof.
  intros first.
  apply (rerun_skips_everything sample_host false sample_client
           [sample_pdf; sample_png] zero_counters sample_machine).
  reflexivity.
Defined.

Lemma writes_only_outputs_witness :
  disk (machine_of
          (for_each [sample_pdf]
             (main_loop_body sample_host false sample_client)
             zero_counters sample_machine)) !! "a.pdf"
  = None.
Proof.
  destruct (writes_only_outputs sample_host false sample_client
              [sample_pdf] zero_counters sample_machine)
    as (evs & _ & _ & _ & Hother).
  rewrite Hother; [reflexivity |].
  intros f Hf. apply list_elem_of_singleton in Hf. subst f. discriminate.
Defined.

Lemma failed_write_and_retry_witness :
  let host := sample_host_writing (WriteFailed IOError "par") in
  let first :=
    main_loop_body host false sample_client sample_pdf zero_counters
      sample_machine in
  locals_of first = incr_errors zero_counters
  /\ disk (machine_of first) !! "a.md" = Some "par"
  /\ main_loop_body host false sample_client sample_pdf
       (locals_of first) (machine_of first)
     = (Normal tt, incr_skipped (locals_of first), machine_of first).
Proof.
  intros host first.
  destruct (failed_write_and_retry host false sample_client sample_pdf
              zero_counters sample_machine sample_released sample_response
              eq_refl eq_refl eq_refl) as [Hfailed _].
  destruct (Hfailed IOError "par" tt eq_refl) as (Hcount & Hdisk & Hskip).
  split; [exact Hcount |]. split; [exact Hdisk |]. apply Hskip.
Defined.

Lemma same_stem_converted_once_witness :
  let s1 :=
    main_loop_body sample_host false sample_client sample_pdf zero_counters
      sample_machine in
  main_loop_body sample_host false sample_client sample_png
    (locals_of s1) (machine_of s1)
  = (Normal tt, incr_skipped (locals_of s1), machine_of s1).
Proof.
  intros s1.
  apply (same_stem_converted_once sample_host false sample_client
           sample_pdf sample_png [] zero_counters sample_machine);
    reflexivity.
Defined.

Lemma nothing_before_the_loop_witness :
  main sample_host_without_key false zero_counters sample_machine
  = (Normal 1, zero_counters, sample_machine).
Proof.
  apply (nothing_before_the_loop sample_host_without_key false
           zero_counters sample_machine).
  reflexivity.
Defined.

Lemma pdf_result_criterion_witness :
  outcome_of
    (process_pdf_file sample_host sample_client sample_pdf false None
       sample_machine)
  = Normal (Some sample_response).
Proof.
  apply pdf_result_criterion.
  exists [Byte.x25], tt, method_upload,
    (fun _ _ w => (Normal {| file_id := "file-1" |}, w)),
    {| file_id := "file-1" |}, tt,
    {| signed_url := Some "https://signed"; url := None |}, tt,
    "https://signed", tt.
  repeat split.
Defined.
